(** * carnet-naturaliste: the offline-first synchronisation core

    A shallow embedding of [src/services/storageService.ts] and of the
    merge performed by [handleImportRequest] in [src/App.tsx].

    - Records of [src/types.ts] become Rocq records.  String enums are
      strings at run time and are kept as [string]; JavaScript numbers are
      never inspected by the code below, so the development is parametric
      in their representation ([number]).
    - [localStorage] holds the two keys the module uses.  The values are
      kept parsed: [JSON.parse] after [JSON.stringify] is the identity on
      the data stored here.
    - The Supabase client is an interface ([RemoteStore]): every call
      either resolves to a [{ data, error }] object or rejects.
    - [async] functions are computations over an explicit [World]; a
      thrown exception is a [Throw] result, the state changes made before
      it are kept. *)

From Stdlib Require Import String Ascii NArith DecimalString Bool Lia.
From Stdlib Require DecimalPos DecimalN.
From stdpp Require Import base option list.

Local Open Scope string_scope.
Local Open Scope list_scope.

(** ** Data model ([src/types.ts]) *)

Record GPS (number : Type) := mkGPS {
  lat : option number;
  lon : option number
}.
Arguments mkGPS {number}.
Arguments lat {number}.
Arguments lon {number}.

Record Observation (number : Type) := mkObservation {
  id : string;
  speciesName : string;
  latinName : string;
  taxonomicGroup : string;
  date : string;
  time : string;
  count : number;
  location : string;
  gps : GPS number;
  municipality : string;
  department : string;
  country : string;
  altitude : option number;
  comment : string;
  status : string;
  atlasCode : string;
  protocol : string;
  sexe : string;
  age : string;
  observationCondition : string;
  comportement : string;
  photo : option string;
  sound : option string;
  wikipediaImage : option string
}.
Arguments mkObservation {number}.
Arguments id {number}.
Arguments speciesName {number}.
Arguments latinName {number}.
Arguments taxonomicGroup {number}.
Arguments date {number}.
Arguments time {number}.
Arguments count {number}.
Arguments location {number}.
Arguments gps {number}.
Arguments municipality {number}.
Arguments department {number}.
Arguments country {number}.
Arguments altitude {number}.
Arguments comment {number}.
Arguments status {number}.
Arguments atlasCode {number}.
Arguments protocol {number}.
Arguments sexe {number}.
Arguments age {number}.
Arguments observationCondition {number}.
Arguments comportement {number}.
Arguments photo {number}.
Arguments sound {number}.
Arguments wikipediaImage {number}.

(** The object literal built by [mapToRow]: the columns of the
    [observations] table except [id], which [mapToRow] never copies. *)
Record Row (number : Type) := mkRow {
  user_id : string;
  species_name : string;
  latin_name : string;
  taxonomic_group : string;
  row_date : string;
  row_time : string;
  row_count : number;
  row_location : string;
  gps_lat : option number;
  gps_lon : option number;
  row_municipality : string;
  row_department : string;
  row_country : string;
  row_altitude : option number;
  row_comment : string;
  row_status : string;
  atlas_code : string;
  row_protocol : string;
  row_sexe : string;
  row_age : string;
  observation_condition : string;
  row_comportement : string;
  photo_url : option string;
  wikipedia_image : option string;
  sound_url : option string
}.
Arguments mkRow {number}.
Arguments user_id {number}.
Arguments species_name {number}.
Arguments latin_name {number}.
Arguments taxonomic_group {number}.
Arguments row_date {number}.
Arguments row_time {number}.
Arguments row_count {number}.
Arguments row_location {number}.
Arguments gps_lat {number}.
Arguments gps_lon {number}.
Arguments row_municipality {number}.
Arguments row_department {number}.
Arguments row_country {number}.
Arguments row_altitude {number}.
Arguments row_comment {number}.
Arguments row_status {number}.
Arguments atlas_code {number}.
Arguments row_protocol {number}.
Arguments row_sexe {number}.
Arguments row_age {number}.
Arguments observation_condition {number}.
Arguments row_comportement {number}.
Arguments photo_url {number}.
Arguments wikipedia_image {number}.
Arguments sound_url {number}.

(** A row as the table returns it: the primary key and the columns. *)
Record DbRow (number : Type) := mkDbRow {
  db_id : string;
  db_cols : Row number
}.
Arguments mkDbRow {number}.
Arguments db_id {number}.
Arguments db_cols {number}.

(** [addToQueue]'s [action] argument. *)
Inductive Action := INSERT | UPDATE | DELETE.

(** [addToQueue]'s [payload: any]: a whole observation, or the object
    [{ id }] queued by [deleteObservation]. *)
Inductive Payload (number : Type) :=
| PObservation (o : Observation number)
| PIdOnly (i : string).
Arguments PObservation {number}.
Arguments PIdOnly {number}.

Record QueueItem (number : Type) := mkQueueItem {
  action : Action;
  payload : Payload number;
  timestamp : N
}.
Arguments mkQueueItem {number}.
Arguments action {number}.
Arguments payload {number}.
Arguments timestamp {number}.

(** [localStorage], restricted to [QUEUE_KEY] and [LOCAL_CACHE_KEY];
    [None] is a key that was never set. *)
Record Storage (number : Type) := mkStorage {
  offline_sync_queue : option (list (QueueItem number));
  local_observations_cache : option (list (Observation number))
}.
Arguments mkStorage {number}.
Arguments offline_sync_queue {number}.
Arguments local_observations_cache {number}.

(** ** Exceptions and remote answers *)

Inductive Exn :=
| Error (message : string)
| ReferenceError (name : string)
| TypeError (message : string).

Inductive Result (A : Type) :=
| Ok (a : A)
| Throw (e : Exn).
Arguments Ok {A}.
Arguments Throw {A}.

(** What an awaited Supabase query settles to: the promise resolves to
    [{ data, error }] (either may be [null]) or rejects. *)
Inductive Outcome (D : Type) :=
| Resolved (data : option D) (error : option string)
| Rejected (reason : Exn).
Arguments Resolved {D}.
Arguments Rejected {D}.

(** The query chains on [supabase.from('observations')] used by the
    module, as recorded in the world's call log. *)
Inductive Call (number : Type) :=
| SelectAll
| InsertSelectSingle (row : Row number)
| Insert (row : Row number)
| Upsert (rows : list (Row number))
| UpdateEq (row : Row number) (i : string)
| DeleteEq (i : string).
Arguments SelectAll {number}.
Arguments InsertSelectSingle {number}.
Arguments Insert {number}.
Arguments Upsert {number}.
Arguments UpdateEq {number}.
Arguments DeleteEq {number}.

(** The Remote Store: a state [R] and, for each query chain, the answer
    and the next state. *)
Class RemoteStore (number R : Type) := {
  select_all : R -> Outcome (list (DbRow number)) * R;
  insert_select_single : Row number -> R -> Outcome (DbRow number) * R;
  insert : Row number -> R -> Outcome unit * R;
  upsert : list (Row number) -> R -> Outcome unit * R;
  update_eq : Row number -> string -> R -> Outcome unit * R;
  delete_eq : string -> R -> Outcome unit * R
}.

Record User := mkUser { user_ident : string }.

(** Everything the module reads or writes. *)
Record World (number R : Type) := mkWorld {
  onLine : bool;                      (* navigator.onLine *)
  now : N;                            (* Date.now() *)
  auth_user : option User;            (* supabase.auth.getUser() *)
  global_id : option string;          (* the free identifier [id], if bound *)
  localStorage : Storage number;
  remote : R;
  calls : list (Call number)          (* queries issued so far, oldest first *)
}.
Arguments mkWorld {number R}.
Arguments onLine {number R}.
Arguments now {number R}.
Arguments auth_user {number R}.
Arguments global_id {number R}.
Arguments localStorage {number R}.
Arguments remote {number R}.
Arguments calls {number R}.

(** ** The computation monad: state passing with exceptions *)

Section Core.
Context {number R : Type} `{RS : RemoteStore number R}.

Definition M (A : Type) : Type :=
  World number R -> Result A * World number R.

Definition ret {A} (a : A) : M A := fun w => (Ok a, w).

Definition throw {A} (e : Exn) : M A := fun w => (Throw e, w).

Definition bind {A B} (m : M A) (k : A -> M B) : M B :=
  fun w =>
    match m w with
    | (Ok a, w') => k a w'
    | (Throw e, w') => (Throw e, w')
    end.

(** [try { m } catch (e) { handler e }] *)
Definition try_catch {A} (m : M A) (handler : Exn -> M A) : M A :=
  fun w =>
    match m w with
    | (Ok a, w') => (Ok a, w')
    | (Throw e, w') => handler e w'
    end.

#[global] Instance M_ret : MRet M := @ret.
#[global] Instance M_bind : MBind M := fun A B k m => bind m k.

(** *** Primitive effects *)

Definition navigator_onLine : M bool := fun w => (Ok (onLine w), w).

Definition Date_now : M N := fun w => (Ok (now w), w).

(** [const { data: { user } } = await supabase.auth.getUser()] *)
Definition auth_getUser : M (option User) := fun w => (Ok (auth_user w), w).

(** Evaluating the identifier [id] where no declaration of it is in
    scope: the global binding if there is one, a [ReferenceError]
    otherwise. *)
Definition free_identifier_id : M string :=
  fun w =>
    match global_id w with
    | Some v => (Ok v, w)
    | None => (Throw (ReferenceError "id"), w)
    end.

Definition with_storage (s : Storage number) (w : World number R) : World number R :=
  mkWorld (onLine w) (now w) (auth_user w) (global_id w) s (remote w) (calls w).

Definition with_remote (r : R) (c : Call number) (w : World number R) : World number R :=
  mkWorld (onLine w) (now w) (auth_user w) (global_id w) (localStorage w) r (calls w ++ [c]).

(** [await] of a query chain: the call is logged, the Remote Store
    answers, a rejection is rethrown at the [await]. *)
Definition await {D} (c : Call number) (q : R -> Outcome D * R)
  : M (option D * option string) :=
  fun w =>
    match q (remote w) with
    | (Resolved data error, r') => (Ok (data, error), with_remote r' c w)
    | (Rejected reason, r') => (Throw reason, with_remote r' c w)
    end.

(** [JSON.parse(localStorage.getItem(KEY) || '[]')] *)
Definition read_queue (s : Storage number) : list (QueueItem number) :=
  default [] (offline_sync_queue s).

Definition read_cache (s : Storage number) : list (Observation number) :=
  default [] (local_observations_cache s).

Definition getQueue : M (list (QueueItem number)) :=
  fun w => (Ok (read_queue (localStorage w)), w).

Definition setQueue (q : list (QueueItem number)) : M unit :=
  fun w =>
    (Ok tt, with_storage (mkStorage (Some q) (local_observations_cache (localStorage w))) w).

Definition getLocalCache : M (list (Observation number)) :=
  fun w => (Ok (read_cache (localStorage w)), w).

Definition setLocalCache (observations : list (Observation number)) : M unit :=
  fun w =>
    (Ok tt, with_storage (mkStorage (offline_sync_queue (localStorage w)) (Some observations)) w).

(** The Pending Operation Log and the Local Cache of a world. *)
Definition pendingLog (w : World number R) : list (QueueItem number) :=
  read_queue (localStorage w).

Definition localCache (w : World number R) : list (Observation number) :=
  read_cache (localStorage w).

(** *** Small pieces of JavaScript *)

(** [a || b] on strings: the empty string is falsy. *)
Definition js_or (a b : string) : string :=
  if String.eqb a "" then b else a.

(** [!user] *)
Definition js_not {A} (o : option A) : bool :=
  match o with
  | Some _ => false
  | None => true
  end.

(** [`${n}`] for a non-negative integer. *)
Definition decimal (n : N) : string := NilZero.string_of_uint (N.to_uint n).

(** [String(s).startsWith(p)] *)
Definition startsWith (s p : string) : bool := String.prefix p s.

(** ** [storageService.ts] *)

Definition mapToObservation (row : DbRow number) : Observation number :=
  let c := db_cols row in
  {| id := db_id row;
     speciesName := species_name c;
     latinName := latin_name c;
     taxonomicGroup := taxonomic_group c;
     date := row_date c;
     time := row_time c;
     count := row_count c;
     location := row_location c;
     gps := {| lat := gps_lat c; lon := gps_lon c |};
     municipality := row_municipality c;
     department := row_department c;
     country := row_country c;
     altitude := row_altitude c;
     comment := row_comment c;
     status := row_status c;
     atlasCode := atlas_code c;
     protocol := row_protocol c;
     sexe := row_sexe c;
     age := row_age c;
     observationCondition := observation_condition c;
     comportement := row_comportement c;
     photo := photo_url c;
     wikipediaImage := wikipedia_image c;
     sound := sound_url c |}.

Definition mapToRow (obs : Observation number) (userId : string) : Row number :=
  {| user_id := userId;
     species_name := speciesName obs;
     latin_name := latinName obs;
     taxonomic_group := taxonomicGroup obs;
     row_date := date obs;
     row_time := time obs;
     row_count := count obs;
     row_location := location obs;
     gps_lat := lat (gps obs);
     gps_lon := lon (gps obs);
     row_municipality := municipality obs;
     row_department := department obs;
     row_country := country obs;
     row_altitude := altitude obs;
     row_comment := comment obs;
     row_status := status obs;
     atlas_code := atlasCode obs;
     row_protocol := protocol obs;
     row_sexe := sexe obs;
     row_age := age obs;
     observation_condition := observationCondition obs;
     row_comportement := comportement obs;
     photo_url := photo obs;
     wikipedia_image := wikipediaImage obs;
     sound_url := sound obs |}.

(** [mapToRow(item.payload, ...)] on a queued payload.  On [{ id }] the
    read of [obs.gps.lat] dereferences [undefined]. *)
Definition mapToRow_payload (p : Payload number) (userId : string) : M (Row number) :=
  match p with
  | PObservation o => ret (mapToRow o userId)
  | PIdOnly _ => throw (TypeError "Cannot read properties of undefined (reading 'lat')")
  end.

(** [item.payload.id] *)
Definition payload_id (p : Payload number) : string :=
  match p with
  | PObservation o => id o
  | PIdOnly i => i
  end.

Definition addToQueue (a : Action) (p : Payload number) : M unit :=
  queue ← getQueue;
  t ← Date_now;
  setQueue (queue ++ [mkQueueItem a p t]).

(** [{ ...observation, id: i }] *)
Definition with_id (o : Observation number) (i : string) : Observation number :=
  {| id := i;
     speciesName := speciesName o;
     latinName := latinName o;
     taxonomicGroup := taxonomicGroup o;
     date := date o;
     time := time o;
     count := count o;
     location := location o;
     gps := gps o;
     municipality := municipality o;
     department := department o;
     country := country o;
     altitude := altitude o;
     comment := comment o;
     status := status o;
     atlasCode := atlasCode o;
     protocol := protocol o;
     sexe := sexe o;
     age := age o;
     observationCondition := observationCondition o;
     comportement := comportement o;
     photo := photo o;
     sound := sound o;
     wikipediaImage := wikipediaImage o |}.

Definition getObservations : M (list (Observation number)) :=
  online ← navigator_onLine;
  if negb online then getLocalCache
  else
    try_catch
      ('(data, error) ← await SelectAll select_all;
       match error with
       | Some message => throw (Error message)
       | None =>
           match data with
           | None => throw (TypeError "Cannot read properties of null (reading 'map')")
           | Some rows =>
               let observations := map mapToObservation rows in
               setLocalCache observations;;
               ret observations
           end
       end)
      (fun _ => getLocalCache).

Definition saveObservation (observation : Observation number) : M (Observation number) :=
  user ← auth_getUser;
  online ← navigator_onLine;
  if js_not user && online
  then throw (Error "User not authenticated")
  else
    let userId := js_or (from_option user_ident "" user) "offline-user" in
    if negb online then
      t ← Date_now;
      let offlineObs := with_id observation (js_or (id observation) ("temp-" ++ decimal t)) in
      addToQueue INSERT (PObservation offlineObs);;
      currentCache ← getLocalCache;
      setLocalCache (offlineObs :: currentCache);;
      ret offlineObs
    else
      let row := mapToRow observation userId in
      '(data, error) ← await (InsertSelectSingle row) (insert_select_single row);
      match error with
      | Some message => throw (Error message)
      | None =>
          match data with
          | None => throw (TypeError "Cannot read properties of null (reading 'id')")
          | Some d =>
              let savedObs := mapToObservation d in
              currentCache ← getLocalCache;
              setLocalCache (savedObs :: currentCache);;
              ret savedObs
          end
      end.

(** [currentCache.map(obs => obs.id === observation.id ? observation : obs)] *)
Definition replaceById (observation : Observation number)
  (currentCache : list (Observation number)) : list (Observation number) :=
  map (fun obs => if String.eqb (id obs) (id observation) then observation else obs)
      currentCache.

(** [currentCache.filter(obs => obs.id !== id)] *)
Definition removeById (i : string)
  (currentCache : list (Observation number)) : list (Observation number) :=
  List.filter (fun obs => negb (String.eqb (id obs) i)) currentCache.

Definition updateObservation (observation : Observation number) : M unit :=
  user ← auth_getUser;
  let userId := js_or (from_option user_ident "" user) "offline-user" in
  online ← navigator_onLine;
  if negb online then
    addToQueue UPDATE (PObservation observation);;
    currentCache ← getLocalCache;
    setLocalCache (replaceById observation currentCache)
  else
    let row := mapToRow observation userId in
    '(_, error) ← await (UpdateEq row (id observation)) (update_eq row (id observation));
    match error with
    | Some message => throw (Error message)
    | None =>
        currentCache ← getLocalCache;
        setLocalCache (replaceById observation currentCache)
    end.

Definition deleteObservation (i : string) : M unit :=
  online ← navigator_onLine;
  if negb online then
    addToQueue DELETE (PIdOnly i);;
    currentCache ← getLocalCache;
    setLocalCache (removeById i currentCache)
  else
    '(_, error) ← await (DeleteEq i) (delete_eq i);
    match error with
    | Some message => throw (Error message)
    | None =>
        currentCache ← getLocalCache;
        setLocalCache (removeById i currentCache)
    end.

Definition syncObservations (observations : list (Observation number)) : M unit :=
  user ← auth_getUser;
  match user with
  | None => throw (Error "User not authenticated")
  | Some u =>
      let rows := map (fun obs => mapToRow obs (user_ident u)) observations in
      '(_, error) ← await (Upsert rows) (upsert rows);
      match error with
      | Some message => throw (Error message)
      | None => ret tt
      end
  end.

(** The body of the [try] block of [processOfflineQueue] for one item.
    The awaited answers are discarded: the source binds none of them. *)
Definition processItem (userId : string) (item : QueueItem number) : M unit :=
  match action item with
  | INSERT =>
      row ← mapToRow_payload (payload item) userId;
      i ← free_identifier_id;
      if startsWith i "temp-"
      then await (Insert row) (insert row);; ret tt
      else await (Upsert [row]) (upsert [row]);; ret tt
  | UPDATE =>
      row ← mapToRow_payload (payload item) userId;
      await (UpdateEq row (payload_id (payload item)))
            (update_eq row (payload_id (payload item)));;
      ret tt
  | DELETE =>
      await (DeleteEq (payload_id (payload item)))
            (delete_eq (payload_id (payload item)));;
      ret tt
  end.

(** [for (const item of queue) { try { ... } catch { newQueue.push(item) } }];
    [newQueue] is the accumulator. *)
Fixpoint drainLoop (userId : string) (queue newQueue : list (QueueItem number))
  : M (list (QueueItem number)) :=
  match queue with
  | [] => ret newQueue
  | item :: rest =>
      kept ← try_catch (processItem userId item;; ret newQueue)
                       (fun _ => ret (newQueue ++ [item]));
      drainLoop userId rest kept
  end.

Definition processOfflineQueue : M unit :=
  online ← navigator_onLine;
  if negb online then ret tt
  else
    queue ← getQueue;
    if Nat.eqb (length queue) 0 then ret tt
    else
      user ← auth_getUser;
      match user with
      | None => ret tt
      | Some u =>
          newQueue ← drainLoop (user_ident u) queue [];
          setQueue newQueue;;
          if Nat.eqb (length newQueue) 0 then
            '(data, _) ← await SelectAll select_all;
            match data with
            | Some rows => setLocalCache (map mapToObservation rows)
            | None => ret tt
            end
          else ret tt
      end.

(** ** [App.tsx]: the merge of [handleImportRequest] *)

(** [mergedObservations.findIndex(existingObs => existingObs.id === newObs.id)];
    [None] is the result [-1]. *)
Fixpoint findIndex (i : string) (l : list (Observation number)) : option nat :=
  match l with
  | [] => None
  | existingObs :: rest =>
      if String.eqb (id existingObs) i then Some 0
      else option_map S (findIndex i rest)
  end.

(** One call of the [forEach] callback. *)
Definition mergeStep (mergedObservations : list (Observation number))
  (newObs : Observation number) : list (Observation number) :=
  match findIndex (id newObs) mergedObservations with
  | Some index => <[index := newObs]> mergedObservations
  | None => mergedObservations ++ [newObs]
  end.

(** [const mergedObservations = [...observations];
     importedObservations.forEach(...)] *)
Definition mergeImport (observations importedObservations : list (Observation number))
  : list (Observation number) :=
  fold_left mergeStep importedObservations observations.

(** The confirmed import: the merged list is pushed with
    [syncObservations] and becomes the component's [observations] state;
    when the push throws, the [catch] leaves the state as it was.  The
    result is the new [observations] state. *)
Definition handleImportRequest (observations importedObservations : list (Observation number))
  : M (list (Observation number)) :=
  let mergedObservations := mergeImport observations importedObservations in
  try_catch (syncObservations mergedObservations;; ret mergedObservations)
            (fun _ => ret observations).

(** *** The other handlers of [App.tsx]

    The part of the component state the handlers below write. *)
Inductive View := LIST | FORM | MAP | STATS | GALLERY | CALENDAR.

Record AppState := mkAppState {
  app_observations : list (Observation number);          (* observations *)
  app_view : View;                                        (* view *)
  app_editingObservation : option (Observation number);   (* editingObservation *)
  app_error : option string                               (* error *)
}.

(** [handleEditObservation] *)
Definition handleEditObservation (i : string) (st : AppState) : AppState :=
  match List.find (fun obs => String.eqb (id obs) i) (app_observations st) with
  | Some observationToEdit =>
      mkAppState (app_observations st) FORM (Some observationToEdit) (app_error st)
  | None => st
  end.

(** The [onConfirm] closure of [handleDeleteRequest]. *)
Definition handleDeleteRequest (i : string) (st : AppState) : M AppState :=
  try_catch
    (deleteObservation i;;
     ret (mkAppState (removeById i (app_observations st))
            (app_view st) (app_editingObservation st) (app_error st)))
    (fun _ =>
       ret (mkAppState (app_observations st) (app_view st) (app_editingObservation st)
              (Some "Erreur lors de la suppression de l'observation."))).

(** [for (const id of ids) { await deleteObservation(id).catch(...) }] *)
Fixpoint deleteEach (ids : list string) : M unit :=
  match ids with
  | [] => ret tt
  | i :: rest =>
      try_catch (deleteObservation i) (fun _ => ret tt);;
      deleteEach rest
  end.

(** [prev.filter(obs => !idsSet.has(obs.id))] *)
Definition removeByIds (ids : list string)
  (prev : list (Observation number)) : list (Observation number) :=
  List.filter (fun obs => negb (existsb (String.eqb (id obs)) ids)) prev.

(** The [onConfirm] closure of [handleBulkDeleteRequest]. *)
Definition handleBulkDeleteRequest (ids : list string) (st : AppState) : M AppState :=
  try_catch
    (let st' := mkAppState (removeByIds ids (app_observations st))
                  (app_view st) (app_editingObservation st) (app_error st) in
     deleteEach ids;;
     ret st')
    (fun _ =>
       ret (mkAppState (removeByIds ids (app_observations st))
              (app_view st) (app_editingObservation st)
              (Some "Erreur lors de la suppression multiple."))).

(** [handleSaveObservation] *)
Definition handleSaveObservation (observation : Observation number) (st : AppState)
  : M AppState :=
  try_catch
    (observations' ←
       match app_editingObservation st with
       | Some _ =>
           updateObservation observation;;
           ret (replaceById observation (app_observations st))
       | None =>
           savedObs ← saveObservation observation;
           let newObservation := with_id observation (id savedObs) in
           ret (newObservation :: app_observations st)
       end;
     ret (mkAppState observations' LIST None (app_error st)))
    (fun _ =>
       ret (mkAppState (app_observations st) (app_view st) (app_editingObservation st)
              (Some "Erreur lors de la sauvegarde de l'observation."))).

(** [sortConfig] and [requestSort]; a sort key is a field name or ['']. *)
Inductive SortDirection := ascending | descending.

Record SortConfig := mkSortConfig {
  sort_key : string;
  sort_direction : SortDirection
}.

Definition requestSort (key : string) (sortConfig : SortConfig) : SortConfig :=
  mkSortConfig key
    (match sort_direction sortConfig with
     | ascending => if String.eqb (sort_key sortConfig) key then descending else ascending
     | descending => ascending
     end).

(** *** The spreadsheet import's enum helpers

    [Object.values(E)] for the string enums of [src/types.ts], and the
    helpers that coerce a cell to a member of the enum. *)
Definition Status_values : list string :=
  ["NE"; "DD"; "LC"; "NT"; "VU"; "EN"; "CR"; "EW"; "EX"].

Definition Protocol_values : list string :=
  ["Opportuniste"; "STOC EPS"; "EPOC"; "Battage"; "Fauchage"; "1m/1m"; "3m/3m";
   "5m/5m"; "Boitier ultrasons"; "Suivi piège photographique";
   "Comptage Wetlands"; "Autre"].

Definition Sexe_values : list string := ["Non renseigné"; "Mâle"; "Femelle"].

Definition Age_values : list string :=
  ["Non renseigné"; "Poussin non volant"; "Poussin volant"; "Immature";
   "1ère année"; "2ème année"; "3ème année"; "4ème année"; "5ème année"; "Adulte"].

Definition ObservationCondition_values : list string :=
  ["Non renseigné"; "Vu en vol"; "Vu posé"; "Contact auditif"; "Ultrasons";
   "Indices de présence"; "En fleur"; "En fruit"].

Definition Comportement_values : list string :=
  ["Non renseigné"; "Migration active"; "Chasse"; "Dortoir/Reposoir"; "En transit"].

(** [values.includes(value)] *)
Definition includes (values : list string) (value : string) : bool :=
  existsb (String.eqb value) values.

Definition mapStatus (value : string) : string :=
  if includes Status_values value then value else "NE".

Definition mapProtocol (value : string) : string :=
  if includes Protocol_values value then value else "Opportuniste".

Definition mapSexe (value : string) : string :=
  if includes Sexe_values value then value else "Non renseigné".

Definition mapAge (value : string) : string :=
  if includes Age_values value then value else "Non renseigné".

Definition mapCondition (value : string) : string :=
  if includes ObservationCondition_values value then value else "Non renseigné".

Definition mapComportement (value : string) : string :=
  if includes Comportement_values value then value else "Non renseigné".

(** [uploadPhoto].  The photo bucket is not the [observations] table:
    [upload name file] is what the awaited
    [supabase.storage.from('photos').upload(name, file, ...)] settles to,
    and [getPublicUrl name] the URL the client computes for a name. *)
Definition uploadPhoto {Blob : Type} (upload : string -> Blob -> Outcome unit)
  (getPublicUrl : string -> string) (file : Blob) : M string :=
  online ← navigator_onLine;
  if negb online
  then throw (Error "Impossible d'envoyer une photo en mode hors-ligne. Veuillez réessayer une fois connecté.")
  else
    user ← auth_getUser;
    match user with
    | None => throw (Error "User not authenticated")
    | Some u =>
        t ← Date_now;
        let fileName := (user_ident u ++ "/" ++ decimal t ++ ".jpg")%string in
        match upload fileName file with
        | Rejected reason => throw reason
        | Resolved _ (Some message) => throw (Error message)
        | Resolved _ None => ret (getPublicUrl fileName)
        end
    end.

(** ** Vocabulary of the statements *)

Implicit Types (w : World number R) (o : Observation number).

(** A fetch succeeded when the promise resolved without an error object
    and with rows. *)
Definition fetched (out : Outcome (list (DbRow number)))
  : option (list (DbRow number)) :=
  match out with
  | Resolved (Some rows) None => Some rows
  | _ => None
  end.

(** What the loop may change: the Remote Store and the call log only. *)
Definition same_device w w1 : Prop :=
  onLine w1 = onLine w /\ now w1 = now w /\ auth_user w1 = auth_user w /\
  global_id w1 = global_id w /\ localStorage w1 = localStorage w.

(** A remote call failed: the promise rejected, or it resolved with an
    error object. *)
Definition failed {D} (out : Outcome D) : Prop :=
  match out with
  | Rejected _ => True
  | Resolved _ (Some _) => True
  | Resolved _ None => False
  end.

(** [user?.id || 'offline-user'] *)
Definition userIdOf w : string :=
  js_or (from_option user_ident "" (auth_user w)) "offline-user".

(** The query a queued item issues when its [try] block reaches one,
    given the binding [gid] of the free identifier [id]. *)
Definition submission (userId : string) (gid : option string)
  (item : QueueItem number) : option (Call number) :=
  match action item, payload item with
  | INSERT, PObservation obs =>
      match gid with
      | Some v =>
          Some (if startsWith v "temp-"
                then Insert (mapToRow obs userId)
                else Upsert [mapToRow obs userId])
      | None => None
      end
  | UPDATE, PObservation obs => Some (UpdateEq (mapToRow obs userId) (id obs))
  | DELETE, p => Some (DeleteEq (payload_id p))
  | _, PIdOnly _ => None
  end.

(** The first record of a list that carries a given id. *)
Definition lookupById (i : string) (l : list (Observation number))
  : option (Observation number) :=
  List.find (fun x => String.eqb (id x) i) l.

(** The operations the UI can issue. *)
Inductive Op :=
| OpFetch
| OpCreate (o : Observation number)
| OpUpdate (o : Observation number)
| OpDelete (i : string)
| OpImport (observations imported : list (Observation number))
| OpDrain.

(** The world an operation leaves. *)
Definition exec (op : Op) w : World number R :=
  match op with
  | OpFetch => snd (getObservations w)
  | OpCreate o => snd (saveObservation o w)
  | OpUpdate o => snd (updateObservation o w)
  | OpDelete i => snd (deleteObservation i w)
  | OpImport observations imported =>
      snd (handleImportRequest observations imported w)
  | OpDrain => snd (processOfflineQueue w)
  end.






(** The item an operation appends to the pending log when it runs
    offline at clock [t]. *)
Definition queuedBy (t : N) (op : Op) : option (QueueItem number) :=
  match op with
  | OpCreate o =>
      Some (mkQueueItem INSERT
              (PObservation (with_id o (js_or (id o) ("temp-" ++ decimal t)))) t)
  | OpUpdate o => Some (mkQueueItem UPDATE (PObservation o) t)
  | OpDelete i => Some (mkQueueItem DELETE (PIdOnly i) t)
  | OpFetch | OpImport _ _ | OpDrain => None
  end.

(** Operations issued one after the other, each while the device is
    offline.  Between two of them everything but [localStorage] and the
    call log may change (the clock moves on, the session may expire).
    [items] collects, in order, what each operation queues at the clock
    value it runs at. *)
Inductive offline_run :
  World number R -> list Op -> list (QueueItem number) -> World number R -> Prop :=
| offline_done w : offline_run w [] [] w
| offline_wait w w' ops items w2 :
    localStorage w' = localStorage w -> calls w' = calls w ->
    offline_run w' ops items w2 ->
    offline_run w ops items w2
| offline_step w op ops items w2 :
    onLine w = false ->
    offline_run (exec op w) ops items w2 ->
    offline_run w (op :: ops) (option_list (queuedBy (now w) op) ++ items) w2.

(** Two records that agree on every attribute but, possibly, the id. *)
Definition same_attributes (a b : Observation number) : Prop :=
  speciesName a = speciesName b /\ latinName a = latinName b /\
  taxonomicGroup a = taxonomicGroup b /\ date a = date b /\ time a = time b /\
  count a = count b /\ location a = location b /\ gps a = gps b /\
  municipality a = municipality b /\ department a = department b /\
  country a = country b /\ altitude a = altitude b /\ comment a = comment b /\
  status a = status b /\ atlasCode a = atlasCode b /\ protocol a = protocol b /\
  sexe a = sexe b /\ age a = age b /\
  observationCondition a = observationCondition b /\
  comportement a = comportement b /\ photo a = photo b /\ sound a = sound b /\
  wikipediaImage a = wikipediaImage b.

End Core.

(** ** Concrete worlds

    A Remote Store whose answers are fixed in advance, and sample
    records, for evaluating the functions on explicit inputs. *)
Module Fixture.

Record Answers := mkAnswers {
  on_select : Outcome (list (DbRow Z));
  on_insert_single : Outcome (DbRow Z);
  on_write : Call Z -> Outcome unit
}.

#[global] Instance AnswersStore : RemoteStore Z Answers := {|
  select_all r := (on_select r, r);
  insert_select_single row r := (on_insert_single r, r);
  insert row r := (on_write r (Insert row), r);
  upsert rows r := (on_write r (Upsert rows), r);
  update_eq row i r := (on_write r (UpdateEq row i), r);
  delete_eq i r := (on_write r (DeleteEq i), r)
|}.

Definition sighting (i species : string) : Observation Z :=
  {| id := i; speciesName := species; latinName := "";
     taxonomicGroup := "Oiseaux"; date := "2024-05-01"; time := "08:30";
     count := 1%Z; location := ""; gps := mkGPS None None;
     municipality := ""; department := ""; country := "France";
     altitude := None; comment := ""; status := "LC"; atlasCode := "";
     protocol := "Opportuniste"; sexe := "Non renseigné";
     age := "Non renseigné"; observationCondition := "Non renseigné";
     comportement := "Non renseigné"; photo := None; sound := None;
     wikipediaImage := None |}.

Definition alice : User := mkUser "3f0c-alice".

(** The network is unreachable: every promise rejects. *)
Definition unreachable : Answers :=
  mkAnswers (Rejected (TypeError "Failed to fetch"))
            (Rejected (TypeError "Failed to fetch"))
            (fun _ => Rejected (TypeError "Failed to fetch")).

(** The server answers every query with an error object. *)
Definition refusing : Answers :=
  mkAnswers (Resolved None (Some "permission denied"))
            (Resolved None (Some "permission denied"))
            (fun _ => Resolved None (Some "permission denied")).

(** Writes are accepted; the final [select] times out server side. *)
Definition select_fails : Answers :=
  mkAnswers (Resolved None (Some "statement timeout"))
            (Resolved None (Some "statement timeout"))
            (fun _ => Resolved None None).

(** Every query succeeds; the table holds one row. *)
Definition healthy : Answers :=
  mkAnswers (Resolved (Some [mkDbRow "b7e1" (mapToRow (sighting "" "Merle noir") "3f0c-alice")]) None)
            (Resolved (Some (mkDbRow "b7e1" (mapToRow (sighting "" "Merle noir") "3f0c-alice"))) None)
            (fun _ => Resolved None None).

Definition offline_world (s : Storage Z) : World Z Answers :=
  mkWorld false 1700000000123%N (Some alice) None s unreachable [].

Definition online_world (a : Answers) (s : Storage Z) : World Z Answers :=
  mkWorld true 1700000000999%N (Some alice) None s a [].

Definition empty_storage : Storage Z := mkStorage None None.

(** A Remote Store that is either reachable or not; its table holds one
    row, so every fetch respects the primary key. *)
Inductive Link := LinkUp | LinkDown.

Definition link_answer {D} (l : Link) (data : option D) : Outcome D :=
  match l with
  | LinkUp => Resolved data None
  | LinkDown => Rejected (TypeError "Failed to fetch")
  end.

#[global] Instance LinkStore : RemoteStore Z Link := {|
  select_all l :=
    (link_answer l (Some [mkDbRow "b7e1" (mapToRow (sighting "" "Merle noir") "3f0c-alice")]), l);
  insert_select_single row l := (link_answer l (Some (mkDbRow "b7e1" row)), l);
  insert row l := (link_answer l None, l);
  upsert rows l := (link_answer l None, l);
  update_eq row i l := (link_answer l None, l);
  delete_eq i l := (link_answer l None, l)
|}.

Definition merle : Observation Z := sighting "" "Merle noir".

Definition merle_placeholder : Observation Z := sighting "temp-1700000000123" "Merle noir".

Definition pie : Observation Z := sighting "c9d2" "Pie bavarde".

(** A log holding one offline create (placeholder id) and one create
    queued with a server-style id. *)
Definition two_inserts : Storage Z :=
  mkStorage
    (Some [mkQueueItem INSERT (PObservation merle_placeholder) 1700000000123%N;
           mkQueueItem INSERT (PObservation pie) 1700000000456%N])
    (Some [pie; merle_placeholder]).

(** A log holding an update and a delete of records the server knows. *)
Definition update_then_delete : Storage Z :=
  mkStorage
    (Some [mkQueueItem UPDATE (PObservation (sighting "b7e1" "Merle noir")) 1700000000123%N;
           mkQueueItem DELETE (PIdOnly "c9d2") 1700000000456%N])
    (Some [sighting "b7e1" "Merle noir"]).

(** A log holding one delete, with one other record cached. *)
Definition one_delete : Storage Z :=
  mkStorage (Some [mkQueueItem DELETE (PIdOnly "b7e1") 1700000000123%N])
            (Some [pie]).


(** Three offline creates, a few hundred milliseconds apart: two records
    without an id, then one whose id the caller supplies. *)
Definition link_offline : World Z Link :=
  mkWorld false 1700000000123%N (Some alice) None empty_storage LinkDown [].

Definition later (t : N) (w : World Z Link) : World Z Link :=
  mkWorld false t (Some alice) None (localStorage w) LinkDown (calls w).

Definition three_created : World Z Link :=
  later 1700000000999%N (exec (OpCreate pie)
    (later 1700000000789%N (exec (OpCreate merle)
       (later 1700000000456%N (exec (OpCreate merle) link_offline))))).


(** Online over the two-state link, with a session. *)
Definition link_online (s : Storage Z) : World Z Link :=
  mkWorld true 1700000000999%N (Some alice) None s LinkUp [].

(** Online over a healthy store, session expired. *)
Definition signed_out (s : Storage Z) : World Z Answers :=
  mkWorld true 1700000000999%N None None s healthy [].

Definition merle_saved : Observation Z := sighting "b7e1" "Merle noir".

Definition geai : Observation Z := sighting "e4f5" "Geai des chenes".

(** The list view showing what [one_delete] caches. *)
Definition showing_pie : AppState (number := Z) := mkAppState [pie] LIST None None.

(** The form opened on the cached record. *)
Definition editing_pie : AppState (number := Z) := mkAppState [pie] FORM (Some pie) None.


(** The list view showing two records, the second of which shares its id
    with a third. *)
Definition showing_three : AppState (number := Z) :=
  mkAppState [pie; geai; sighting "e4f5" "Geai bleu"] LIST None None.


(** A bucket that accepts every upload, and the URL scheme of its
    public objects. *)
Definition bucket_accepts (name : string) (file : string) : Outcome unit :=
  Resolved None None.

Definition public_url (name : string) : string :=
  "https://example.supabase.co/storage/v1/object/public/photos/" ++ name.

End Fixture.

(** ** Properties *)

Section Properties.
Context {number R : Type} `{RS : RemoteStore number R}.

Implicit Types (w : World number R) (o : Observation number).
Implicit Types (cache : list (Observation number)).

(** Unfold one operation down to the primitive effects. *)
Ltac run :=
  unfold saveObservation, updateObservation, deleteObservation,
    getObservations, processOfflineQueue, handleImportRequest,
    syncObservations, addToQueue, mapToRow_payload,
    getQueue, setQueue, getLocalCache, setLocalCache, free_identifier_id,
    navigator_onLine, Date_now, auth_getUser, await, try_catch, throw,
    pendingLog, localCache, with_storage, with_remote,
    mbind, M_bind, mret, M_ret, bind, ret in *;
  cbn in *.

(** *** JavaScript helpers *)

Lemma js_or_nonempty (a b : string) : b <> "" -> js_or a b <> "".
Proof.
  unfold js_or. destruct (String.eqb_spec a ""); congruence.
Qed.

Lemma js_or_falsy (b : string) : js_or "" b = b.
Proof. reflexivity. Qed.

Lemma startsWith_app (p s : string) : startsWith (p ++ s) p = true.
Proof.
  unfold startsWith. induction p as [|c p IH]; cbn.
  - now destruct s.
  - rewrite IH. now destruct (Ascii.ascii_dec c c).
Qed.

(** *** The cache helpers *)


Lemma replaceById_absent o cache :
  (forall x, In x cache -> id x <> id o) -> replaceById o cache = cache.
Proof.
  unfold replaceById. induction cache as [|x cache IH]; cbn; intros Hno; [easy|].
  rewrite IH by auto.
  destruct (String.eqb_spec (id x) (id o)) as [E|_]; [|easy].
  exfalso. exact (Hno x (or_introl eq_refl) E).
Qed.

Lemma removeById_absent (i : string) cache :
  (forall x, In x cache -> id x <> i) -> removeById i cache = cache.
Proof.
  unfold removeById. induction cache as [|x cache IH]; cbn; intros Hno; [easy|].
  destruct (String.eqb_spec (id x) i) as [E|_]; cbn.
  - exfalso. exact (Hno x (or_introl eq_refl) E).
  - now rewrite IH by auto.
Qed.

(** *** Offline create *)

(** C7.  An offline [saveObservation] returns the input record itself
    when it carries an id, and otherwise the input record, attribute for
    attribute, under the id [temp-<Date.now()>].  That record is at the
    head of the Local Cache, hence in what [getObservations] (the UI's
    [list()]) then returns; its id is not empty, and when the input carried
    no id the id assigned starts with [temp-].  The pending log grows by
    the INSERT of that record. *)
Theorem offline_create_is_visible o w :
  onLine w = false ->
  exists o' w',
    saveObservation o w = (Ok o', w') /\
    same_attributes o' o /\
    id o' = (if String.eqb (id o) "" then ("temp-" ++ decimal (now w))%string else id o) /\
    (id o <> "" -> o' = o) /\
    localCache w' = o' :: localCache w /\
    getObservations w' = (Ok (o' :: localCache w), w') /\
    id o' <> "" /\
    (id o = "" -> startsWith (id o') "temp-" = true) /\
    pendingLog w' = pendingLog w ++ [mkQueueItem INSERT (PObservation o') (now w)].
Proof.
  intros Hoff. destruct w as [online t user gid store r cs]. cbn in Hoff. subst online.
  run. rewrite andb_false_r. cbn.
  eexists _, _. split; [reflexivity|]. cbn.
  split; [now repeat split|].
  split; [reflexivity|].
  split.
  { intros Hne. unfold js_or.
    destruct (String.eqb_spec (id o) "") as [E|_]; [contradiction|]. now destruct o. }
  repeat split.
  - apply js_or_nonempty. discriminate.
  - intros ->. exact (startsWith_app "temp-" (decimal t)).
Qed.

(** *** Reading *)

(** C8.  [getObservations] returns the Local Cache and leaves
    [localStorage] untouched when offline and when the remote fetch fails
    (rejection, error object, or no rows); when the fetch succeeds it
    returns the fetched records and the Local Cache becomes exactly
    them. *)
Theorem getObservations_read_path w :
  (onLine w = false -> getObservations w = (Ok (localCache w), w)) /\
  (onLine w = true -> fetched (fst (select_all (remote w))) = None ->
     fst (getObservations w) = Ok (localCache w) /\
     localStorage (snd (getObservations w)) = localStorage w) /\
  (forall rows, onLine w = true ->
     fetched (fst (select_all (remote w))) = Some rows ->
     fst (getObservations w) = Ok (map mapToObservation rows) /\
     localCache (snd (getObservations w)) = map mapToObservation rows /\
     pendingLog (snd (getObservations w)) = pendingLog w).
Proof.
  destruct w as [online t user gid store r cs]. cbn.
  repeat split; intros; subst; run.
  - reflexivity.
  - destruct (select_all r) as [[[rows|] [e|]|e] r']; cbn in *;
      try discriminate; reflexivity.
  - destruct (select_all r) as [[[rows|] [e|]|e] r']; cbn in *;
      try discriminate; reflexivity.
  - destruct (select_all r) as [[[rows'|] [e|]|e] r']; cbn in *;
      try discriminate. now simplify_eq.
  - destruct (select_all r) as [[[rows'|] [e|]|e] r']; cbn in *;
      try discriminate. now simplify_eq.
  - destruct (select_all r) as [[[rows'|] [e|]|e] r']; cbn in *;
      try discriminate. reflexivity.
Qed.

(** *** Drain without a session *)

(** C9.  Online, with a non-empty pending log and no authenticated user,
    [processOfflineQueue] returns normally and the world is the one it
    started in: no query was issued, and the pending log and the Local
    Cache are untouched. *)
Theorem drain_without_user_is_noop w :
  onLine w = true ->
  pendingLog w <> [] ->
  auth_user w = None ->
  processOfflineQueue w = (Ok tt, w).
Proof.
  destruct w as [online t user gid store r cs]. cbn.
  intros -> Hq ->. run.
  destruct (read_queue store); [congruence|reflexivity].
Qed.

(** *** Offline update and delete of an id the cache does not hold *)

(** C10.  Offline, [updateObservation] of a record and
    [deleteObservation] of an id that match no entry of the Local Cache
    append their UPDATE / DELETE item to the pending log, issue no query,
    and leave the Local Cache as it was. *)
Theorem offline_write_of_unknown_id w :
  onLine w = false ->
  (forall o, (forall x, In x (localCache w) -> id x <> id o) ->
     exists w',
       updateObservation o w = (Ok tt, w') /\
       pendingLog w' = pendingLog w ++ [mkQueueItem UPDATE (PObservation o) (now w)] /\
       localCache w' = localCache w /\
       calls w' = calls w) /\
  (forall i, (forall x, In x (localCache w) -> id x <> i) ->
     exists w',
       deleteObservation i w = (Ok tt, w') /\
       pendingLog w' = pendingLog w ++ [mkQueueItem DELETE (PIdOnly i) (now w)] /\
       localCache w' = localCache w /\
       calls w' = calls w).
Proof.
  destruct w as [online t user gid store r cs]. cbn.
  intros ->. split.
  - intros o Hno. run. eexists. split; [reflexivity|]. cbn.
    repeat split. now apply replaceById_absent.
  - intros i Hno. run. eexists. split; [reflexivity|]. cbn.
    repeat split. now apply removeById_absent.
Qed.

(** *** The drain loop *)

Lemma same_device_refl w : same_device w w.
Proof. now repeat split. Qed.

Lemma same_device_trans w w1 w2 :
  same_device w w1 -> same_device w1 w2 -> same_device w w2.
Proof.
  unfold same_device. intros (?&?&?&?&?) (?&?&?&?&?).
  repeat split; congruence.
Qed.

Lemma await_frame {D} (c : Call number) (q : R -> Outcome D * R) w :
  same_device w (snd (await c q w)) /\
  calls (snd (await c q w)) = calls w ++ [c].
Proof.
  unfold await. destruct (q (remote w)) as [[d e|e] r']; cbn;
    (split; [now repeat split|reflexivity]).
Qed.

Lemma processItem_frame (userId : string) (item : QueueItem number) w :
  same_device w (snd (processItem userId item w)) /\
  exists cs, calls (snd (processItem userId item w)) = calls w ++ cs /\
             length cs <= 1.
Proof.
  destruct w as [online t user gid store r cs0].
  destruct item as [[| |] [o|i] ts]; unfold processItem; run;
    try (split; [apply same_device_refl|]; exists []; cbn;
         rewrite app_nil_r; split; [reflexivity|lia]).
  - destruct gid as [g|]; cbn.
    + destruct (startsWith g "temp-"); cbn.
      * destruct (insert _ r) as [[d e|e] r']; cbn;
          (split; [now repeat split|]; eexists [_]; split; [reflexivity|cbn; lia]).
      * destruct (upsert _ r) as [[d e|e] r']; cbn;
          (split; [now repeat split|]; eexists [_]; split; [reflexivity|cbn; lia]).
    + split; [now repeat split|]. exists []. cbn.
      rewrite app_nil_r. split; [reflexivity|lia].
  - destruct (update_eq _ _ r) as [[d e|e] r']; cbn;
      (split; [now repeat split|]; eexists [_]; split; [reflexivity|cbn; lia]).
  - destruct (delete_eq _ r) as [[d e|e] r']; cbn;
      (split; [now repeat split|]; eexists [_]; split; [reflexivity|cbn; lia]).
  - destruct (delete_eq _ r) as [[d e|e] r']; cbn;
      (split; [now repeat split|]; eexists [_]; split; [reflexivity|cbn; lia]).
Qed.

(** The loop always runs to its end; it keeps a sublist of the queue, in
    queue order, appended to the accumulator, and touches neither
    [localStorage] nor the session. *)
Lemma drainLoop_total (userId : string) (queue : list (QueueItem number)) :
  forall newQueue w,
  exists kept w1,
    drainLoop userId queue newQueue w = (Ok (newQueue ++ kept), w1) /\
    sublist kept queue /\
    same_device w w1 /\
    exists cs, calls w1 = calls w ++ cs.
Proof.
  induction queue as [|item rest IH]; intros newQueue w; cbn [drainLoop].
  - exists [], w. rewrite app_nil_r. repeat split.
    + constructor.
    + exists []. now rewrite app_nil_r.
  - unfold mbind, M_bind, bind at 1, try_catch.
    destruct (processItem_frame userId item w) as (Hdev & cs & Hcs & _).
    unfold mbind, M_bind, bind at 1.
    destruct (processItem userId item w) as [[[]|e] w1]; cbn in *.
    + destruct (IH newQueue w1) as (kept & w2 & Heq & Hsub & Hdev2 & cs2 & Hcs2).
      exists kept, w2.
      split; [exact Heq|]. split; [now constructor|].
      split; [exact (same_device_trans _ _ _ Hdev Hdev2)|].
      exists (cs ++ cs2). rewrite Hcs2, Hcs. now rewrite app_assoc.
    + destruct (IH (newQueue ++ [item]) w1) as (kept & w2 & Heq & Hsub & Hdev2 & cs2 & Hcs2).
      exists (item :: kept), w2.
      split; [rewrite Heq, <- app_assoc; reflexivity|].
      split; [now constructor|].
      split; [exact (same_device_trans _ _ _ Hdev Hdev2)|].
      exists (cs ++ cs2). rewrite Hcs2, Hcs. now rewrite app_assoc.
Qed.

(** Each item issues at most one query, and the queries of a drain loop
    are those of its items, in queue order. *)
Lemma processItem_calls (userId : string) (item : QueueItem number) w :
  calls (snd (processItem userId item w)) =
  calls w ++ option_list (submission userId (global_id w) item).
Proof.
  destruct w as [online t user gid store r cs0].
  destruct item as [[| |] [o|i] ts]; unfold processItem, submission; run;
    try (now rewrite app_nil_r).
  - destruct gid as [g|]; cbn; [|now rewrite app_nil_r].
    destruct (startsWith g "temp-"); cbn.
    + now destruct (insert _ r) as [[d e|e] r'].
    + now destruct (upsert _ r) as [[d e|e] r'].
  - now destruct (update_eq _ _ r) as [[d e|e] r'].
  - now destruct (delete_eq _ r) as [[d e|e] r'].
  - now destruct (delete_eq _ r) as [[d e|e] r'].
Qed.

Lemma drainLoop_calls (userId : string) (queue : list (QueueItem number)) :
  forall newQueue w,
  calls (snd (drainLoop userId queue newQueue w)) =
  calls w ++ omap (submission userId (global_id w)) queue.
Proof.
  induction queue as [|item rest IH]; intros newQueue w; cbn [drainLoop omap].
  - cbn. now rewrite app_nil_r.
  - unfold mbind, M_bind, bind at 1, try_catch.
    pose proof (processItem_calls userId item w) as Hc.
    destruct (processItem_frame userId item w) as ((_ & _ & _ & Hgid & _) & _).
    unfold mbind, M_bind, bind at 1.
    destruct (processItem userId item w) as [[[]|e] w1]; cbn in *;
      rewrite IH, Hc, Hgid, <- app_assoc; f_equal;
      unfold omap, list_omap; cbn;
      now destruct (submission userId (global_id w) item).
Qed.

(** A queued UPDATE or DELETE whose query resolves is processed without
    a throw, whatever error object the answer carries: the loop will not
    keep it. *)
Lemma processItem_resolved_is_ok (userId : string) o (i : string) (ts : N) w :
  (forall d e r', update_eq (mapToRow o userId) (id o) (remote w) = (Resolved d e, r') ->
     fst (processItem userId (mkQueueItem UPDATE (PObservation o) ts) w) = Ok tt) /\
  (forall d e r', delete_eq i (remote w) = (Resolved d e, r') ->
     fst (processItem userId (mkQueueItem DELETE (PIdOnly i) ts) w) = Ok tt).
Proof.
  destruct w as [online t user gid store r cs]. cbn.
  split; intros d e r' Hq; unfold processItem; run; now rewrite Hq.
Qed.

(** With no binding for the free identifier [id], processing a queued
    INSERT throws before any query is built: nothing reaches the Remote
    Store and the world is unchanged. *)
Lemma processItem_insert_unbound (userId : string) (item : QueueItem number) w :
  global_id w = None ->
  action item = INSERT ->
  exists e, processItem userId item w = (Throw e, w).
Proof.
  destruct w as [online t user gid store r cs]. cbn. intros -> Hact.
  destruct item as [a [o|i] ts]; cbn in Hact; subst a;
    unfold processItem; run; eauto.
Qed.

(** Whatever the free identifier [id] is bound to, the choice between
    [insert] and [upsert] for a queued INSERT does not look at the id of
    the queued record. *)
Lemma processItem_insert_ignores_payload_id (userId i : string) o ts w :
  processItem userId (mkQueueItem INSERT (PObservation (with_id o i)) ts) w =
  processItem userId (mkQueueItem INSERT (PObservation o) ts) w.
Proof. reflexivity. Qed.

(** *** Refresh after a drain *)

(** The three guards: offline, empty log, no session. *)
Lemma processOfflineQueue_skipped w :
  onLine w = false \/ pendingLog w = [] \/ auth_user w = None ->
  processOfflineQueue w = (Ok tt, w).
Proof.
  destruct w as [[] t user gid store r cs]; [|reflexivity].
  unfold pendingLog. cbn. intros [Hoff|[Hq|Hu]]; [discriminate| |]; run.
  - now rewrite Hq.
  - rewrite Hu. now destruct (read_queue store).
Qed.

(** The pass after its three guards: the loop, the store of the kept
    items, then the refresh block. *)
Lemma processOfflineQueue_run w u kept w1 :
  onLine w = true ->
  pendingLog w <> [] ->
  auth_user w = Some u ->
  drainLoop (user_ident u) (pendingLog w) [] w = (Ok kept, w1) ->
  processOfflineQueue w =
    let w2 := with_storage
                (mkStorage (Some kept) (local_observations_cache (localStorage w1))) w1 in
    match kept with
    | [] =>
        match select_all (remote w1) with
        | (Resolved (Some rows) _, r') =>
            (Ok tt,
             with_storage (mkStorage (Some kept) (Some (map mapToObservation rows)))
               (with_remote r' SelectAll w2))
        | (Resolved None _, r') => (Ok tt, with_remote r' SelectAll w2)
        | (Rejected reason, r') => (Throw reason, with_remote r' SelectAll w2)
        end
    | _ :: _ => (Ok tt, w2)
    end.
Proof.
  intros Hon Hq Hu Hloop.
  unfold processOfflineQueue, mbind, M_bind, bind at 1, navigator_onLine.
  rewrite Hon. cbn [negb].
  unfold bind at 1, getQueue. fold (pendingLog w).
  destruct (pendingLog w) as [|item rest] eqn:Elog; [congruence|].
  cbn [length Nat.eqb].
  unfold bind at 1, auth_getUser. rewrite Hu.
  unfold bind at 1. rewrite Hloop.
  unfold bind at 1, setQueue.
  destruct kept as [|k kept]; cbn [length Nat.eqb]; [|reflexivity].
  unfold bind, await. cbn.
  destruct (select_all (remote w1)) as [[[rows|] e|e] r']; reflexivity.
Qed.

(** C4, as the code has it.  For a drain pass that runs (online, log not
    empty, authenticated user) the loop ends with the kept items [kept],
    which become the stored log.  If an item was kept, nothing more is
    asked of the Remote Store and the Local Cache is the one before the
    drain.  If none was kept, exactly one full fetch follows the loop; the
    Local Cache becomes the fetched records when the answer carries rows
    and stays as before the drain when it carries none. *)
Theorem drain_refresh_gating w u :
  onLine w = true ->
  pendingLog w <> [] ->
  auth_user w = Some u ->
  exists kept w1,
    drainLoop (user_ident u) (pendingLog w) [] w = (Ok kept, w1) /\
    pendingLog (snd (processOfflineQueue w)) = kept /\
    (kept <> [] ->
       fst (processOfflineQueue w) = Ok tt /\
       calls (snd (processOfflineQueue w)) = calls w1 /\
       localCache (snd (processOfflineQueue w)) = localCache w) /\
    (kept = [] ->
       calls (snd (processOfflineQueue w)) = calls w1 ++ [SelectAll] /\
       match fst (select_all (remote w1)) with
       | Resolved (Some rows) _ =>
           localCache (snd (processOfflineQueue w)) = map mapToObservation rows
       | _ => localCache (snd (processOfflineQueue w)) = localCache w
       end).
Proof.
  intros Hon Hq Hu.
  destruct (drainLoop_total (user_ident u) (pendingLog w) [] w)
    as (kept & w1 & Hloop & _ & (_ & _ & _ & _ & Hsto) & _).
  cbn [app] in Hloop. exists kept, w1. split; [exact Hloop|].
  rewrite (processOfflineQueue_run w u kept w1 Hon Hq Hu Hloop).
  unfold localCache, pendingLog.
  destruct kept as [|k kept]; cbn.
  - destruct (select_all (remote w1)) as [[[rows|] e|e] r']; cbn;
      (split; [reflexivity|]); (split; [congruence|]); intros _;
      (split; [reflexivity|]); try reflexivity; now rewrite Hsto.
  - split; [reflexivity|]. split; [|congruence].
    intros _. repeat split. now rewrite Hsto.
Qed.

(** *** Online writes whose remote call fails *)

(** C2, as the code has it.  Online, when the remote call of
    [saveObservation], [updateObservation] or [deleteObservation] fails,
    the function throws to its caller and [localStorage] (the pending log
    and the Local Cache) is exactly as before: nothing is queued and
    nothing is applied optimistically. *)
Theorem online_failure_is_thrown w :
  onLine w = true ->
  (forall o,
     failed (fst (insert_select_single (mapToRow o (userIdOf w)) (remote w))) ->
     exists e, fst (saveObservation o w) = Throw e /\
               localStorage (snd (saveObservation o w)) = localStorage w) /\
  (forall o,
     failed (fst (update_eq (mapToRow o (userIdOf w)) (id o) (remote w))) ->
     exists e, fst (updateObservation o w) = Throw e /\
               localStorage (snd (updateObservation o w)) = localStorage w) /\
  (forall i,
     failed (fst (delete_eq i (remote w))) ->
     exists e, fst (deleteObservation i w) = Throw e /\
               localStorage (snd (deleteObservation i w)) = localStorage w).
Proof.
  destruct w as [online t user gid store r cs]. unfold userIdOf. cbn.
  intros ->. repeat split.
  - intros o Hfail. run. destruct user as [u|]; cbn in *; [|eauto].
    destruct (insert_select_single _ r) as [[d [e|]|e] r']; cbn in *;
      try contradiction; eauto.
  - intros o Hfail. run.
    destruct (update_eq _ _ r) as [[d [e|]|e] r']; cbn in *;
      try contradiction; eauto.
  - intros i Hfail. run.
    destruct (delete_eq _ r) as [[d [e|]|e] r']; cbn in *;
      try contradiction; eauto.
Qed.

(** *** Merge-import *)

Lemma findIndex_None (i : string) (l : list (Observation number)) :
  findIndex i l = None <-> (forall x, In x l -> id x <> i).
Proof.
  induction l as [|x l IH]; cbn.
  - split; [intros _ ? []|reflexivity].
  - destruct (String.eqb_spec (id x) i) as [E|NE].
    + split; [discriminate|]. intros H. exfalso. exact (H x (or_introl eq_refl) E).
    + destruct (findIndex i l) as [n|]; cbn.
      * split; [discriminate|]. intros H.
        assert (Some n = None) by (apply IH; auto). discriminate.
      * split; [|reflexivity]. intros _ y [<-|Hy]; [exact NE|].
        now apply IH.
Qed.

Lemma findIndex_first (i : string) (l1 l2 : list (Observation number)) x :
  id x = i ->
  (forall y, In y l1 -> id y <> i) ->
  findIndex i (l1 ++ x :: l2) = Some (length l1).
Proof.
  intros Hx. induction l1 as [|y l1 IH]; cbn; intros Hl1.
  - destruct (String.eqb_spec (id x) i); congruence.
  - destruct (String.eqb_spec (id y) i) as [E|_].
    + exfalso. exact (Hl1 y (or_introl eq_refl) E).
    + rewrite IH by auto. reflexivity.
Qed.

Lemma findIndex_Some (i : string) (l : list (Observation number)) (n : nat) :
  findIndex i l = Some n ->
  exists l1 x l2, l = l1 ++ x :: l2 /\ length l1 = n /\ id x = i /\
                  (forall y, In y l1 -> id y <> i).
Proof.
  revert n. induction l as [|x l IH]; cbn; intros n; [discriminate|].
  destruct (String.eqb_spec (id x) i) as [E|NE].
  - intros [= <-]. exists [], x, l. repeat split; [exact E|intros ? []].
  - destruct (findIndex i l) as [m|]; cbn; [|discriminate].
    intros [= <-]. destruct (IH m eq_refl) as (l1 & y & l2 & -> & <- & Hy & Hl1).
    exists (x :: l1), y, l2. repeat split; [exact Hy|].
    intros z [<-|Hz]; auto.
Qed.

Lemma mergeStep_replace (l1 l2 : list (Observation number)) old newObs :
  id old = id newObs ->
  (forall x, In x l1 -> id x <> id newObs) ->
  mergeStep (l1 ++ old :: l2) newObs = l1 ++ newObs :: l2.
Proof.
  intros Hold Hl1. unfold mergeStep.
  rewrite (findIndex_first _ l1 l2 old Hold Hl1).
  replace (length l1) with (length l1 + 0) by lia.
  now rewrite insert_app_r.
Qed.

Lemma mergeStep_append (merged : list (Observation number)) newObs :
  (forall x, In x merged -> id x <> id newObs) ->
  mergeStep merged newObs = merged ++ [newObs].
Proof.
  intros H. unfold mergeStep.
  now rewrite (proj2 (findIndex_None _ _) H).
Qed.

(** Either way, [mergeStep] is one of the two shapes. *)
Lemma mergeStep_cases (merged : list (Observation number)) newObs :
  (exists l1 old l2, merged = l1 ++ old :: l2 /\ id old = id newObs /\
     (forall x, In x l1 -> id x <> id newObs) /\
     mergeStep merged newObs = l1 ++ newObs :: l2) \/
  ((forall x, In x merged -> id x <> id newObs) /\
   mergeStep merged newObs = merged ++ [newObs]).
Proof.
  destruct (findIndex (id newObs) merged) as [n|] eqn:E.
  - left. destruct (findIndex_Some _ _ _ E) as (l1 & old & l2 & -> & _ & Hold & Hl1).
    exists l1, old, l2. repeat split; auto using mergeStep_replace.
  - right. pose proof (proj1 (findIndex_None _ _) E) as Hno.
    split; auto using mergeStep_append.
Qed.

Lemma lookupById_app (i : string) (l1 l2 : list (Observation number)) :
  lookupById i (l1 ++ l2) =
  match lookupById i l1 with
  | Some x => Some x
  | None => lookupById i l2
  end.
Proof.
  unfold lookupById. induction l1 as [|x l1 IH]; cbn; [reflexivity|].
  now destruct (String.eqb (id x) i).
Qed.

Lemma lookupById_absent (i : string) (l : list (Observation number)) :
  (forall x, In x l -> id x <> i) -> lookupById i l = None.
Proof.
  unfold lookupById. induction l as [|x l IH]; cbn; intros H; [reflexivity|].
  destruct (String.eqb_spec (id x) i) as [E|_].
  - exfalso. exact (H x (or_introl eq_refl) E).
  - auto.
Qed.

Lemma lookupById_mergeStep (i : string) (merged : list (Observation number)) newObs :
  lookupById i (mergeStep merged newObs) =
  if String.eqb (id newObs) i then Some newObs else lookupById i merged.
Proof.
  destruct (mergeStep_cases merged newObs)
    as [(l1 & old & l2 & -> & Hold & Hl1 & ->)|(Hno & ->)].
  - rewrite !lookupById_app. unfold lookupById at 2 4. cbn. rewrite Hold.
    destruct (String.eqb_spec (id newObs) i) as [<-|NE]; [|reflexivity].
    now rewrite lookupById_absent.
  - rewrite lookupById_app. unfold lookupById at 2. cbn.
    destruct (String.eqb_spec (id newObs) i) as [<-|NE].
    + now rewrite lookupById_absent.
    + now destruct (lookupById i merged).
Qed.

Lemma mergeStep_ids (merged : list (Observation number)) newObs :
  NoDup (map id merged) -> NoDup (map id (mergeStep merged newObs)).
Proof.
  intros Hnd.
  destruct (mergeStep_cases merged newObs)
    as [(l1 & old & l2 & -> & Hold & Hl1 & ->)|(Hno & ->)].
  - rewrite map_app, map_cons in *. now rewrite <- Hold.
  - rewrite map_app. cbn. apply NoDup_app. repeat split.
    + exact Hnd.
    + intros i Hi Hnew. apply list_elem_of_In in Hi, Hnew.
      destruct Hnew as [<-|[]].
      apply in_map_iff in Hi as (x & Hx & Hin). exact (Hno x Hin Hx).
    + apply NoDup_singleton.
Qed.

Lemma mergeImport_snoc (observations imported : list (Observation number)) newObs :
  mergeImport observations (imported ++ [newObs]) =
  mergeStep (mergeImport observations imported) newObs.
Proof. unfold mergeImport. now rewrite fold_left_app. Qed.

Lemma lookupById_mergeImport (i : string) (imported : list (Observation number)) :
  forall observations,
  lookupById i (mergeImport observations imported) =
  match lookupById i (rev imported) with
  | Some newObs => Some newObs
  | None => lookupById i observations
  end.
Proof.
  induction imported as [|newObs imported IH] using rev_ind; intros observations.
  - reflexivity.
  - rewrite mergeImport_snoc, lookupById_mergeStep, rev_unit, IH.
    unfold lookupById at 2. cbn. fold (lookupById i (rev imported)).
    now destruct (String.eqb (id newObs) i).
Qed.

Lemma mergeImport_ids (imported : list (Observation number)) :
  forall observations,
  NoDup (map id observations) ->
  NoDup (map id (mergeImport observations imported)).
Proof.
  induction imported as [|newObs imported IH]; intros observations Hnd; cbn.
  - exact Hnd.
  - apply IH. now apply mergeStep_ids.
Qed.

(** C5.  The merge of [handleImportRequest] is a left-to-right fold of
    [mergeStep] over the incoming batch, starting from the current
    records.  A step whose record's id is already present puts the
    incoming record itself in the place of the first record with that id
    (no field of the old record survives); otherwise it appends the
    incoming record.  Hence, looking a record up by id in the result gives
    the last record of the batch with that id when the batch has one, and
    the current record otherwise; and importing [x] over [y] with the
    same id leaves exactly [x]. *)
Theorem import_merge_last_write_wins
  (observations imported : list (Observation number)) :
  (forall newObs,
     mergeImport observations (imported ++ [newObs]) =
     mergeStep (mergeImport observations imported) newObs) /\
  mergeImport observations [] = observations /\
  (forall (l1 l2 : list (Observation number)) old newObs,
     id old = id newObs ->
     (forall x, In x l1 -> id x <> id newObs) ->
     mergeStep (l1 ++ old :: l2) newObs = l1 ++ newObs :: l2) /\
  (forall (merged : list (Observation number)) newObs,
     (forall x, In x merged -> id x <> id newObs) ->
     mergeStep merged newObs = merged ++ [newObs]) /\
  (forall i,
     lookupById i (mergeImport observations imported) =
     match lookupById i (rev imported) with
     | Some newObs => Some newObs
     | None => lookupById i observations
     end) /\
  (forall x y : Observation number, id x = id y -> mergeImport [y] [x] = [x]).
Proof.
  split; [intros; apply mergeImport_snoc|].
  split; [reflexivity|].
  split; [intros; now apply mergeStep_replace|].
  split; [intros; now apply mergeStep_append|].
  split; [intros; apply lookupById_mergeImport|].
  intros x y Hxy. unfold mergeImport. cbn [fold_left].
  apply (mergeStep_replace [] [] y x); [congruence|intros ? []].
Qed.

(** *** Distinct ids in the Local Cache *)
















(** ** Further properties of [storageService.ts] *)

(** *** Rows *)

(** X1.  A row built by [mapToRow] and read back by [mapToObservation]
    under a key [i] is the observation it came from with [i] as its id:
    every attribute survives the trip, the id is the table's, and the
    observation's own id never enters the row. *)
Theorem row_round_trip o (userId i : string) :
  mapToObservation (mkDbRow i (mapToRow o userId)) = with_id o i /\
  user_id (mapToRow o userId) = userId /\
  (forall j, mapToRow (with_id o j) userId = mapToRow o userId).
Proof.
  destruct o as [oid sp la tg da ti co lo [la1 lo1] mu de cu al cm st at_ pr se ag oc cp ph so wi].
  repeat split.
Qed.

(** *** Writes that reach the Remote Store *)

(** X2.  Online with a session, when the insert resolves with a row and
    no error, [saveObservation] returns the record read from that row (so
    its id is the server's, whatever id the caller supplied), puts it at
    the head of the Local Cache, leaves the pending log alone and has
    issued exactly one query, whose row is [mapToRow] of the input. *)
Theorem online_create_stores_server_record o w u d r' :
  onLine w = true ->
  auth_user w = Some u ->
  insert_select_single (mapToRow o (userIdOf w)) (remote w) = (Resolved (Some d) None, r') ->
  exists w',
    saveObservation o w = (Ok (mapToObservation d), w') /\
    id (mapToObservation d) = db_id d /\
    localCache w' = mapToObservation d :: localCache w /\
    pendingLog w' = pendingLog w /\
    remote w' = r' /\
    calls w' = calls w ++ [InsertSelectSingle (mapToRow o (userIdOf w))].
Proof.
  destruct w as [online t user gid store r cs]. unfold userIdOf. cbn.
  intros -> -> Hq. run. rewrite Hq. cbn.
  eexists. split; [reflexivity|]. now repeat split.
Qed.

(** X3.  Online without a session, [saveObservation] throws
    ['User not authenticated'] and [syncObservations] does so online or
    offline; in both cases the world is untouched: no query, no write to
    [localStorage]. *)
Theorem writes_need_a_session w :
  auth_user w = None ->
  (forall o, onLine w = true ->
     saveObservation o w = (Throw (Error "User not authenticated"), w)) /\
  (forall l, syncObservations l w = (Throw (Error "User not authenticated"), w)).
Proof.
  destruct w as [online t user gid store r cs]. cbn. intros ->.
  split; [intros o ->|intros l]; reflexivity.
Qed.

Lemma lookupById_replaceById o cache (i : string) :
  lookupById i (replaceById o cache) =
  if String.eqb i (id o) then option_map (fun _ => o) (lookupById i cache)
  else lookupById i cache.
Proof.
  unfold lookupById, replaceById.
  induction cache as [|x cache IH]; cbn.
  - now destruct (String.eqb i (id o)).
  - rewrite IH. clear IH.
    destruct (String.eqb_spec (id x) (id o)) as [E|NE];
      destruct (String.eqb_spec i (id o)) as [Hi|Hi];
      destruct (String.eqb_spec (id x) i) as [Hx|Hx];
      try destruct (String.eqb_spec (id o) i) as [Ho|Ho];
      try congruence; reflexivity.
Qed.

(** X4.  Whenever [updateObservation] returns normally, online or
    offline, the Local Cache is the old one with every entry carrying the
    record's id replaced by the record: a lookup of that id gives the record
    if the id was cached and nothing otherwise, and other ids keep their
    entries.  When it throws, [localStorage] is as before. *)
Theorem update_replaces_by_id o w :
  (forall w', updateObservation o w = (Ok tt, w') ->
     localCache w' = replaceById o (localCache w) /\
     (forall i, lookupById i (localCache w') =
        if String.eqb i (id o)
        then option_map (fun _ => o) (lookupById i (localCache w))
        else lookupById i (localCache w))) /\
  (forall e w', updateObservation o w = (Throw e, w') ->
     localStorage w' = localStorage w).
Proof.
  pose proof (lookupById_replaceById o) as Hlook.
  destruct w as [[] t user gid store r cs]; run.
  - destruct (update_eq _ _ r) as [[d [e|]|e] r']; cbn;
      (split; [intros w' Heq|intros e' w' Heq]); inversion Heq; subst; cbn;
      repeat split; auto; intros; apply Hlook.
  - split; [intros w' Heq|intros e' w' Heq]; inversion Heq; subst; cbn;
      repeat split; auto; intros; apply Hlook.
Qed.

Lemma removeById_gone (i : string) cache x :
  In x (removeById i cache) -> id x <> i.
Proof.
  intros Hin. apply filter_In in Hin as [_ Hx].
  destruct (String.eqb_spec (id x) i); [discriminate|assumption].
Qed.

Lemma removeById_others (i j : string) cache :
  j <> i ->
  List.filter (fun x => String.eqb (id x) j) (removeById i cache) =
  List.filter (fun x => String.eqb (id x) j) cache.
Proof.
  intros Hj. unfold removeById.
  induction cache as [|x cache IH]; cbn; [reflexivity|].
  destruct (String.eqb_spec (id x) i) as [E|NE]; cbn.
  - destruct (String.eqb_spec (id x) j); [congruence|exact IH].
  - now rewrite IH.
Qed.

(** X5.  Whenever [deleteObservation] returns normally, online or
    offline, no entry of the Local Cache carries the deleted id and the
    entries with other ids are the old ones in their old order.  When it
    throws, [localStorage] is as before. *)
Theorem delete_removes_by_id (i : string) w :
  (forall w', deleteObservation i w = (Ok tt, w') ->
     localCache w' = removeById i (localCache w) /\
     (forall x, In x (localCache w') -> id x <> i) /\
     (forall j, j <> i ->
        List.filter (fun x => String.eqb (id x) j) (localCache w') =
        List.filter (fun x => String.eqb (id x) j) (localCache w))) /\
  (forall e w', deleteObservation i w = (Throw e, w') ->
     localStorage w' = localStorage w).
Proof.
  pose proof (removeById_gone i) as Hgone.
  pose proof (removeById_others i) as Hkeep.
  destruct w as [[] t user gid store r cs]; run.
  - destruct (delete_eq _ r) as [[d [e|]|e] r']; cbn;
      (split; [intros w' Heq|intros e' w' Heq]); inversion Heq; subst; cbn;
      repeat split; eauto; intros; (eapply Hgone; eassumption) || now apply Hkeep.
  - split; [intros w' Heq|intros e' w' Heq]; inversion Heq; subst; cbn;
      repeat split; eauto; intros; (eapply Hgone; eassumption) || now apply Hkeep.
Qed.

(** X6.  With a session, [syncObservations] issues exactly one query, the
    upsert of one row per observation in list order, each row stamped with
    the session's user id; it throws exactly when that call failed, and it
    never writes to [localStorage]. *)
Theorem sync_is_one_bulk_upsert (l : list (Observation number)) w u :
  auth_user w = Some u ->
  calls (snd (syncObservations l w))
  = calls w ++ [Upsert (map (fun obs => mapToRow obs (user_ident u)) l)] /\
  length (map (fun obs => mapToRow obs (user_ident u)) l) = length l /\
  localStorage (snd (syncObservations l w)) = localStorage w /\
  (fst (syncObservations l w) = Ok tt <->
   ~ failed (fst (upsert (map (fun obs => mapToRow obs (user_ident u)) l) (remote w)))).
Proof.
  destruct w as [online t user gid store r cs]. cbn. intros ->. run.
  rewrite length_map.
  destruct (upsert _ r) as [[d [e|]|e] r']; cbn; repeat split;
    try discriminate; try tauto; intros H; exfalso; apply H; exact I.
Qed.

(** *** More on the drain *)

(** X7.  A drain that is offline or finds the log empty changes nothing
    at all; hence once a drain has left the log empty, draining again
    issues no query and leaves the Local Cache and the log as they are. *)
Theorem drain_replay_is_noop w :
  (onLine w = false \/ pendingLog w = [] -> processOfflineQueue w = (Ok tt, w)) /\
  (pendingLog (snd (processOfflineQueue w)) = [] ->
   processOfflineQueue (snd (processOfflineQueue w))
   = (Ok tt, snd (processOfflineQueue w))).
Proof.
  split.
  - intros [H|H]; apply processOfflineQueue_skipped; auto.
  - intros H. apply processOfflineQueue_skipped; auto.
Qed.

(** X8.  Whatever the Remote Store answers, the log a drain leaves is a
    sublist of the log it found: items are dropped or kept, never added,
    duplicated or reordered. *)
Theorem drain_keeps_a_sublist w :
  sublist (pendingLog (snd (processOfflineQueue w))) (pendingLog w).
Proof.
  destruct (onLine w) eqn:Hon.
  2:{ rewrite processOfflineQueue_skipped; auto. }
  destruct (pendingLog w) as [|item rest] eqn:Hq.
  { rewrite processOfflineQueue_skipped; auto. cbn. now rewrite Hq. }
  destruct (auth_user w) as [u|] eqn:Hu.
  2:{ rewrite processOfflineQueue_skipped; auto. cbn. now rewrite Hq. }
  assert (Hne : pendingLog w <> []) by congruence.
  destruct (drainLoop_total (user_ident u) (pendingLog w) [] w)
    as (kept & w1 & Hloop & Hsub & _ & _).
  cbn [app] in Hloop.
  rewrite (processOfflineQueue_run w u kept w1 Hon Hne Hu Hloop).
  rewrite Hq in Hsub. unfold pendingLog.
  destruct kept as [|k kept]; cbn.
  - destruct (select_all (remote w1)) as [[[rows|] e|e] r']; cbn;
      apply sublist_nil_l.
  - exact Hsub.
Qed.

(** X9.  In a drain pass that runs, the queries issued are the
    submissions of the queued items, at most one per item and in queue
    order, followed by one [select] exactly when no item was kept. *)
Theorem drain_queries_in_queue_order w u :
  onLine w = true ->
  pendingLog w <> [] ->
  auth_user w = Some u ->
  calls (snd (processOfflineQueue w))
  = calls w
    ++ omap (submission (user_ident u) (global_id w)) (pendingLog w)
    ++ match pendingLog (snd (processOfflineQueue w)) with
       | [] => [SelectAll]
       | _ :: _ => []
       end.
Proof.
  intros Hon Hne Hu.
  destruct (drainLoop_total (user_ident u) (pendingLog w) [] w)
    as (kept & w1 & Hloop & _ & _ & _).
  cbn [app] in Hloop.
  pose proof (drainLoop_calls (user_ident u) (pendingLog w) [] w) as Hcalls.
  rewrite Hloop in Hcalls. cbn [snd] in Hcalls.
  rewrite (processOfflineQueue_run w u kept w1 Hon Hne Hu Hloop).
  unfold pendingLog at 2.
  destruct kept as [|k kept]; cbn.
  - destruct (select_all (remote w1)) as [[[rows|] e|e] r']; cbn;
      now rewrite Hcalls, <- app_assoc.
  - now rewrite Hcalls, app_nil_r.
Qed.

Lemma drainLoop_keeps_inserts (userId : string) (queue : list (QueueItem number)) :
  forall newQueue w kept w1,
  global_id w = None ->
  drainLoop userId queue newQueue w = (Ok kept, w1) ->
  forall item,
    In item newQueue \/ (In item queue /\ action item = INSERT) ->
    In item kept.
Proof.
  induction queue as [|x rest IH]; intros newQueue w kept w1 Hgid; cbn [drainLoop].
  - intros [= <- _] item [H|[[] _]]. exact H.
  - unfold mbind, M_bind, bind at 1, try_catch.
    destruct (processItem_frame userId x w) as ((_ & _ & _ & Hgid1 & _) & _).
    unfold mbind, M_bind, bind at 1.
    destruct (processItem userId x w) as [[[]|e] w2] eqn:Hx; cbn in *.
    + intros Hloop item Hitem.
      apply (IH newQueue w2 kept w1 ltac:(congruence) Hloop).
      destruct Hitem as [H|[[<-|H] Hins]]; [now left| |now right].
      destruct (processItem_insert_unbound userId x w Hgid Hins) as (e & He).
      congruence.
    + intros Hloop item Hitem.
      apply (IH (newQueue ++ [x]) w2 kept w1 ltac:(congruence) Hloop).
      destruct Hitem as [H|[[<-|H] Hins]].
      * left. apply in_or_app. now left.
      * left. apply in_or_app. right. now left.
      * now right.
Qed.

(** X10.  As long as the identifier [id] read by the INSERT branch has no
    binding, a drain pass never clears a log that holds an INSERT: every
    queued INSERT is still in the log afterwards, the pass returns
    normally, and the Local Cache is not refreshed. *)
Theorem queued_insert_blocks_the_drain w u item :
  onLine w = true ->
  auth_user w = Some u ->
  global_id w = None ->
  In item (pendingLog w) ->
  action item = INSERT ->
  fst (processOfflineQueue w) = Ok tt /\
  In item (pendingLog (snd (processOfflineQueue w))) /\
  localCache (snd (processOfflineQueue w)) = localCache w.
Proof.
  intros Hon Hu Hgid Hin Hins.
  assert (Hne : pendingLog w <> []) by (intros E; rewrite E in Hin; destruct Hin).
  destruct (drainLoop_total (user_ident u) (pendingLog w) [] w)
    as (kept & w1 & Hloop & _ & (_ & _ & _ & _ & Hsto) & _).
  cbn [app] in Hloop.
  pose proof (drainLoop_keeps_inserts _ _ _ _ _ _ Hgid Hloop item
                (or_intror (conj Hin Hins))) as Hkept.
  rewrite (processOfflineQueue_run w u kept w1 Hon Hne Hu Hloop).
  unfold pendingLog, localCache.
  destruct kept as [|k kept]; [destruct Hkept|]. cbn.
  repeat split; [exact Hkept|now rewrite Hsto].
Qed.

(** *** Sequences of offline operations *)

Lemma exec_offline (op : Op) w :
  onLine w = false ->
  onLine (exec op w) = false /\
  now (exec op w) = now w /\
  pendingLog (exec op w) = pendingLog w ++ option_list (queuedBy (now w) op) /\
  ((forall a b, op <> OpImport a b) -> calls (exec op w) = calls w).
Proof.
  destruct w as [online t user gid store r cs]. cbn. intros ->.
  destruct op as [|o|o|i|observations imported|]; cbn [exec queuedBy option_list]; run;
    rewrite ?app_nil_r; try rewrite andb_false_r; cbn; try now repeat split.
  destruct user as [u|]; cbn.
  - destruct (upsert _ r) as [[d [e|]|e] r']; cbn; repeat split;
      intros H; now destruct (H observations imported).
  - repeat split.
Qed.

(** X11.  For operations issued one after the other, each while the
    device is offline, with the clock, the session and the Remote Store
    free to change in between, the pending log afterwards is the log
    before followed by exactly one item per create, update and delete, in
    the order they were issued and each stamped with the clock value at
    which it was issued (fetches, imports and drains add nothing); and
    unless an import is among them, no query is issued. *)
Theorem offline_log_records_writes w (ops : list Op) items w2 :
  offline_run w ops items w2 ->
  pendingLog w2 = pendingLog w ++ items /\
  ((forall a b, ~ In (OpImport a b) ops) -> calls w2 = calls w).
Proof.
  induction 1 as [w|w w' ops items w2 Hsto Hcalls _ [IHlog IHcalls]
                 |w op ops items w2 Hoff _ [IHlog IHcalls]].
  - rewrite app_nil_r. auto.
  - unfold pendingLog in *. rewrite IHlog, Hsto. split; [reflexivity|].
    intros Hno. now rewrite IHcalls.
  - destruct (exec_offline op w Hoff) as (_ & _ & Hlog & Hcalls).
    split.
    + now rewrite IHlog, Hlog, <- app_assoc.
    + intros Hno. rewrite IHcalls, Hcalls; [reflexivity| |].
      * intros a b ->. apply (Hno a b). now left.
      * intros a b Hin. apply (Hno a b). now right.
Qed.

(** X12.  Offline, creating a record whose final id is not in the Local
    Cache and then deleting the returned id restores the Local Cache
    exactly; the log has grown by the INSERT and the DELETE, in that
    order. *)
Theorem offline_create_then_delete o w :
  onLine w = false ->
  (forall x, In x (localCache w) ->
     id x <> js_or (id o) ("temp-" ++ decimal (now w))) ->
  exists o' w1 w2,
    saveObservation o w = (Ok o', w1) /\
    deleteObservation (id o') w1 = (Ok tt, w2) /\
    localCache w2 = localCache w /\
    pendingLog w2 = pendingLog w
      ++ [mkQueueItem INSERT (PObservation o') (now w);
          mkQueueItem DELETE (PIdOnly (id o')) (now w)].
Proof.
  destruct w as [online t user gid store r cs]. cbn. intros -> Hfresh.
  run. rewrite andb_false_r. cbn.
  eexists _, _, _. split; [reflexivity|]. split; [reflexivity|]. cbn.
  rewrite String.eqb_refl. cbn. split.
  - exact (removeById_absent _ (read_cache store) Hfresh).
  - now rewrite <- app_assoc.
Qed.

Lemma replaceById_twice (o1 o2 : Observation number) cache :
  id o1 = id o2 ->
  replaceById o2 (replaceById o1 cache) = replaceById o2 cache.
Proof.
  intros Hid. unfold replaceById. rewrite map_map. apply map_ext. intros x.
  destruct (String.eqb_spec (id x) (id o1)) as [E|NE]; [|reflexivity].
  rewrite Hid, String.eqb_refl, E, Hid, String.eqb_refl. reflexivity.
Qed.

Lemma updateObservation_ok o w w' :
  updateObservation o w = (Ok tt, w') ->
  localCache w' = replaceById o (localCache w).
Proof.
  destruct w as [[] t user gid store r cs]; run.
  - destruct (update_eq _ _ r) as [[d [e|]|e] r']; cbn;
      intros Heq; inversion Heq; subst; reflexivity.
  - intros Heq; inversion Heq; subst; reflexivity.
Qed.

(** X13.  Two updates of the same id that both return normally, whatever
    happens to connectivity, clock, session or Remote Store in between,
    leave the Local Cache as the second alone would have: the last write
    wins. *)
Theorem last_update_wins (o1 o2 : Observation number) w w1 w1' w2 :
  id o1 = id o2 ->
  updateObservation o1 w = (Ok tt, w1) ->
  localStorage w1' = localStorage w1 ->
  updateObservation o2 w1' = (Ok tt, w2) ->
  localCache w2 = replaceById o2 (localCache w).
Proof.
  intros Hid H1 Henv H2.
  apply updateObservation_ok in H1, H2.
  unfold localCache in *. rewrite H2, Henv, H1.
  now apply replaceById_twice.
Qed.

(** ** Further properties of the merge of [handleImportRequest] *)

Lemma mergeStep_idlist (merged : list (Observation number)) newObs :
  (In (id newObs) (map id merged) /\
   map id (mergeStep merged newObs) = map id merged) \/
  (~ In (id newObs) (map id merged) /\
   map id (mergeStep merged newObs) = map id merged ++ [id newObs]).
Proof.
  destruct (mergeStep_cases merged newObs)
    as [(l1 & old & l2 & -> & Hold & Hl1 & ->)|(Hno & ->)].
  - left. rewrite !map_app, !map_cons, Hold. split; [|reflexivity].
    apply in_or_app. right. now left.
  - right. rewrite map_app. split; [|reflexivity].
    intros Hin. apply in_map_iff in Hin as (x & Hx & Hin). exact (Hno x Hin Hx).
Qed.

Lemma mergeImport_cons (observations imported : list (Observation number)) newObs :
  mergeImport observations (newObs :: imported) =
  mergeImport (mergeStep observations newObs) imported.
Proof. reflexivity. Qed.

Lemma mergeImport_In_ids (imported : list (Observation number)) :
  forall observations i,
  In i (map id (mergeImport observations imported)) <->
  In i (map id observations) \/ In i (map id imported).
Proof.
  induction imported as [|n imported IH]; intros observations i.
  - cbn. tauto.
  - rewrite mergeImport_cons, IH.
    destruct (mergeStep_idlist observations n) as [(Hin & ->)|(_ & ->)].
    + cbn. split; [tauto|]. intros [H|[<-|H]]; tauto.
    + rewrite in_app_iff. cbn. tauto.
Qed.

(** X14.  The ids of the merged list are the current ids, in their
    current order and positions, followed by ids that are new; an id is in
    the result exactly when it is a current id or an id of the batch; the
    result is never shorter than the current list nor longer than both
    lists together; and if the current ids are pairwise distinct, so are
    the merged ones. *)
Theorem import_merge_ids (observations imported : list (Observation number)) :
  (exists added, map id (mergeImport observations imported)
                 = map id observations ++ added) /\
  (forall i, In i (map id (mergeImport observations imported)) <->
             In i (map id observations) \/ In i (map id imported)) /\
  length observations <= length (mergeImport observations imported)
    <= length observations + length imported /\
  (NoDup (map id observations) ->
   NoDup (map id (mergeImport observations imported))).
Proof.
  split; [|split; [|split]].
  - revert observations. induction imported as [|n imported IH]; intros observations.
    + exists []. cbn. now rewrite app_nil_r.
    + rewrite mergeImport_cons. destruct (IH (mergeStep observations n)) as (added & ->).
      destruct (mergeStep_idlist observations n) as [(_ & ->)|(_ & ->)].
      * now exists added.
      * exists (id n :: added). now rewrite <- app_assoc.
  - intros i. apply mergeImport_In_ids.
  - revert observations. induction imported as [|n imported IH]; intros observations.
    + cbn. lia.
    + rewrite mergeImport_cons.
      specialize (IH (mergeStep observations n)).
      assert (Hlen : length (mergeStep observations n) = length observations \/
                     length (mergeStep observations n) = S (length observations)).
      { rewrite <- !(length_map id).
        destruct (mergeStep_idlist observations n) as [(_ & ->)|(_ & ->)]; [now left|].
        right. rewrite length_app. cbn. lia. }
      cbn [length]. lia.
  - apply mergeImport_ids.
Qed.

(** X15.  When the ids of the batch are pairwise distinct and none of
    them is a current id, the merge is the current list followed by the
    batch, in batch order; in particular, importing such a batch into an
    empty list gives the batch itself. *)
Theorem import_of_new_records_appends
  (observations imported : list (Observation number)) :
  NoDup (map id imported) ->
  (forall i, In i (map id imported) -> ~ In i (map id observations)) ->
  mergeImport observations imported = observations ++ imported.
Proof.
  revert observations.
  induction imported as [|n imported IH]; intros observations Hnd Hnew.
  - cbn. now rewrite app_nil_r.
  - rewrite mergeImport_cons.
    cbn [map] in Hnd. apply NoDup_cons in Hnd as [Hn Hnd].
    rewrite mergeStep_append.
    + rewrite IH; [now rewrite <- app_assoc|exact Hnd|].
      intros i Hi. rewrite map_app, in_app_iff. cbn. intros [H|[<-|[]]].
      * apply (Hnew i); [now right|exact H].
      * apply Hn. now apply list_elem_of_In.
    + intros x Hx E. apply (Hnew (id n)); [now left|].
      rewrite <- E. now apply in_map.
Qed.

Lemma mergeStep_cons (x newObs : Observation number) (l : list (Observation number)) :
  mergeStep (x :: l) newObs =
  if String.eqb (id x) (id newObs) then newObs :: l else x :: mergeStep l newObs.
Proof.
  unfold mergeStep. cbn [findIndex].
  destruct (String.eqb (id x) (id newObs)); [reflexivity|].
  now destruct (findIndex (id newObs) l).
Qed.

(** The merge, seen from the head of the current list: the head is
    overwritten by the last record of the batch with its id, and the rest
    of the batch is merged into the tail. *)
Lemma mergeImport_head (imported : list (Observation number)) :
  forall (x : Observation number) (l : list (Observation number)),
  mergeImport (x :: l) imported =
  default x (lookupById (id x) (rev imported))
  :: mergeImport l (List.filter (fun n => negb (String.eqb (id n) (id x))) imported).
Proof.
  induction imported as [|n imported IH]; intros x l; [reflexivity|].
  rewrite mergeImport_cons, mergeStep_cons. cbn [rev List.filter].
  rewrite lookupById_app. unfold lookupById at 2. cbn [List.find].
  destruct (String.eqb_spec (id x) (id n)) as [E|NE].
  - rewrite IH, <- E.
    rewrite String.eqb_refl. cbn [negb].
    now destruct (lookupById (id x) (rev imported)).
  - rewrite IH.
    destruct (String.eqb_spec (id n) (id x)) as [E|_]; [congruence|]. cbn [negb].
    rewrite mergeImport_cons.
    now destruct (lookupById (id x) (rev imported)).
Qed.

Lemma lookupById_filter_other (i j : string) (l : list (Observation number)) :
  i <> j ->
  lookupById i (List.filter (fun n => negb (String.eqb (id n) j)) l) = lookupById i l.
Proof.
  intros Hij. unfold lookupById. induction l as [|x l IH]; cbn; [reflexivity|].
  destruct (String.eqb_spec (id x) j) as [E|NE]; cbn.
  - destruct (String.eqb_spec (id x) i); [congruence|exact IH].
  - now rewrite IH.
Qed.

Lemma lookupById_id (i : string) (l : list (Observation number)) x :
  lookupById i l = Some x -> id x = i.
Proof.
  unfold lookupById. intros H. apply find_some in H as [_ H].
  now apply String.eqb_eq.
Qed.

(** A list that already holds, for every id of the batch, the last
    record of the batch with that id is a fixed point of the merge. *)
Lemma mergeImport_fixed (l : list (Observation number)) :
  forall imported : list (Observation number),
  (forall i, In i (map id imported) -> In i (map id l)) ->
  (forall i n, lookupById i (rev imported) = Some n -> lookupById i l = Some n) ->
  mergeImport l imported = l.
Proof.
  induction l as [|x l IH]; intros imported Hin Hlast.
  - destruct imported as [|n imported]; [reflexivity|].
    destruct (Hin (id n)). now left.
  - rewrite mergeImport_head. f_equal.
    + destruct (lookupById (id x) (rev imported)) as [n|] eqn:E; [|reflexivity].
      specialize (Hlast _ _ E). unfold lookupById in Hlast. cbn in Hlast.
      rewrite String.eqb_refl in Hlast. now injection Hlast as <-.
    + apply IH.
      * intros i Hi. apply in_map_iff in Hi as (n & <- & Hn).
        apply filter_In in Hn as [Hn Hne].
        destruct (Hin (id n) (in_map id _ _ Hn)) as [E|H]; [|exact H].
        rewrite E, String.eqb_refl in Hne. discriminate.
      * intros i n Hn.
        assert (Hi : i <> id x).
        { intros ->. rewrite <- filter_rev in Hn.
          unfold lookupById in Hn. apply find_some in Hn as [Hn Hid].
          apply filter_In in Hn as [_ Hne]. rewrite Hid in Hne. discriminate. }
        rewrite <- filter_rev, lookupById_filter_other in Hn by exact Hi.
        specialize (Hlast _ _ Hn). unfold lookupById in *. cbn in Hlast.
        destruct (String.eqb_spec (id x) i); [congruence|exact Hlast].
Qed.

(** X16.  Importing the same batch a second time changes nothing: the
    merge of a batch into the result of merging that batch is that
    result. *)
Theorem import_twice_is_import_once (observations imported : list (Observation number)) :
  mergeImport (mergeImport observations imported) imported
  = mergeImport observations imported.
Proof.
  apply mergeImport_fixed.
  - intros i Hi. apply mergeImport_In_ids. now right.
  - intros i n Hn. rewrite lookupById_mergeImport. now rewrite Hn.
Qed.

(** ** Properties of the handlers of [App.tsx] *)

(** X17.  A confirmed import never throws and never writes to
    [localStorage].  Without a session it issues no query and leaves the
    displayed list as it was; with a session it issues exactly one query,
    the upsert of the whole merged list, and the displayed list becomes
    the merged list when that call did not fail and stays as it was when
    it failed. *)
Theorem import_pushes_merged_list (observations imported : list (Observation number)) w :
  localStorage (snd (handleImportRequest observations imported w)) = localStorage w /\
  (auth_user w = None ->
   handleImportRequest observations imported w = (Ok observations, w)) /\
  (forall u, auth_user w = Some u ->
     let rows := map (fun obs => mapToRow obs (user_ident u))
                     (mergeImport observations imported) in
     calls (snd (handleImportRequest observations imported w))
     = calls w ++ [Upsert rows] /\
     (~ failed (fst (upsert rows (remote w))) ->
      fst (handleImportRequest observations imported w)
      = Ok (mergeImport observations imported)) /\
     (failed (fst (upsert rows (remote w))) ->
      fst (handleImportRequest observations imported w) = Ok observations)).
Proof.
  destruct w as [online t user gid store r cs]. cbn.
  split; [|split].
  - destruct user as [u|]; run; [|reflexivity].
    destruct (upsert _ r) as [[d [e|]|e] r']; reflexivity.
  - intros ->. reflexivity.
  - intros u ->. run.
    destruct (upsert _ r) as [[d [e|]|e] r']; cbn; repeat split;
      intros H; try reflexivity; try contradiction; exfalso; apply H; exact I.
Qed.

(** X18.  A confirmed single delete never throws.  When
    [deleteObservation] returns, the id is filtered out of the displayed
    list; when it throws, the displayed list is kept and the error banner
    is set.  Either way, a displayed list that equalled the Local Cache
    before still equals it afterwards. *)
Theorem delete_handler_keeps_list_in_step (i : string) (st : AppState) w :
  exists st',
    handleDeleteRequest i st w = (Ok st', snd (deleteObservation i w)) /\
    (app_observations st = localCache w ->
     app_observations st' = localCache (snd (deleteObservation i w))) /\
    ((fst (deleteObservation i w) = Ok tt /\
      app_observations st' = removeById i (app_observations st) /\
      app_error st' = app_error st) \/
     ((exists e, fst (deleteObservation i w) = Throw e) /\
      app_observations st' = app_observations st /\
      app_error st' = Some "Erreur lors de la suppression de l'observation.")).
Proof.
  destruct w as [[] t user gid store r cs]; destruct st as [l v ed er];
    unfold handleDeleteRequest; run.
  - destruct (delete_eq _ r) as [[d [e|]|e] r']; cbn;
      (eexists; split; [reflexivity|]; cbn; split; [now intros ->|]); eauto 6.
  - eexists; split; [reflexivity|]; cbn; split; [now intros ->|]. auto.
Qed.

(** X19.  A save from the form never throws, and its outcome follows
    the storage call it makes ([updateObservation] when a record is being
    edited, [saveObservation] otherwise).  If that call returns, the view
    becomes the list, no record is being edited any more, the banner is
    untouched, and the displayed list has the record replaced by id, or
    gains at its head a record with the input's attributes under the id
    the storage call returned.  If that call throws, the displayed list,
    the view and the record being edited are as before and the banner
    carries the save error.  When the form was editing a record, or when
    the device is offline, a displayed list that equalled the Local Cache
    before still equals it afterwards. *)
Theorem save_handler_keeps_list_in_step o (st : AppState) w :
  exists st' w',
    handleSaveObservation o st w = (Ok st', w') /\
    match app_editingObservation st with
    | Some _ =>
        w' = snd (updateObservation o w) /\
        ((fst (updateObservation o w) = Ok tt /\
          app_observations st' = replaceById o (app_observations st) /\
          app_view st' = LIST /\ app_editingObservation st' = None /\
          app_error st' = app_error st) \/
         ((exists e, fst (updateObservation o w) = Throw e) /\
          app_observations st' = app_observations st /\
          app_view st' = app_view st /\
          app_editingObservation st' = app_editingObservation st /\
          app_error st' = Some "Erreur lors de la sauvegarde de l'observation."))
    | None =>
        w' = snd (saveObservation o w) /\
        ((exists savedObs newObservation,
            fst (saveObservation o w) = Ok savedObs /\
            id newObservation = id savedObs /\
            same_attributes newObservation o /\
            app_observations st' = newObservation :: app_observations st /\
            app_view st' = LIST /\ app_editingObservation st' = None /\
            app_error st' = app_error st) \/
         ((exists e, fst (saveObservation o w) = Throw e) /\
          app_observations st' = app_observations st /\
          app_view st' = app_view st /\
          app_editingObservation st' = None /\
          app_error st' = Some "Erreur lors de la sauvegarde de l'observation."))
    end /\
    (is_Some (app_editingObservation st) \/ onLine w = false ->
     app_observations st = localCache w ->
     app_observations st' = localCache w').
Proof.
  destruct w as [online t user gid store r cs]; destruct st as [l v [ed|] er];
    unfold handleSaveObservation;
    cbn [app_editingObservation app_observations app_view app_error]; run.
  - destruct online; cbn.
    + destruct (update_eq _ _ r) as [[d [e|]|e] r']; cbn;
        eexists _, _; (split; [reflexivity|]); cbn;
        (split; [split; [reflexivity|eauto 10]|now intros _ ->]).
    + eexists _, _; (split; [reflexivity|]); cbn.
      split; [split; [reflexivity|auto 10]|now intros _ ->].
  - destruct online; cbn.
    + destruct user as [u|]; cbn.
      * destruct (insert_select_single _ r) as [[[d|] [e|]|e] r']; cbn;
          eexists _, _; (split; [reflexivity|]); cbn;
          (split; [split; [reflexivity|]|intros [[? [=]]|[=]]]);
          try (right; eauto 10; fail).
        left. eexists _, (with_id o _). split; [reflexivity|]. cbn.
        split; [reflexivity|]. split; [now repeat split|]. auto.
      * eexists _, _; (split; [reflexivity|]); cbn.
        split; [split; [reflexivity|right; eauto 10]|intros [[? [=]]|[=]]].
    + rewrite andb_false_r. cbn.
      eexists _, _; (split; [reflexivity|]); cbn.
      split.
      * split; [reflexivity|]. left. eexists _, (with_id o _).
        split; [reflexivity|]. cbn.
        split; [reflexivity|]. split; [now repeat split|]. auto.
      * intros _ ->. destruct o; reflexivity.
Qed.

(** Deleting one id after another is filtering the whole set out. *)
Lemma removeByIds_cons (i : string) (ids : list string) cache :
  removeByIds ids (removeById i cache) = removeByIds (i :: ids) cache.
Proof.
  unfold removeByIds, removeById. induction cache as [|x cache IH]; cbn; [reflexivity|].
  destruct (String.eqb (id x) i); cbn; [exact IH|].
  destruct (existsb (String.eqb (id x)) ids); cbn; [exact IH|now rewrite IH].
Qed.

Lemma deleteEach_never_throws (ids : list string) :
  forall w, fst (deleteEach ids w) = Ok tt.
Proof.
  induction ids as [|i ids IH]; intros w; cbn [deleteEach]; [reflexivity|].
  unfold mbind, M_bind, bind, try_catch.
  destruct (deleteObservation i w) as [[[]|e] w1]; cbn; apply IH.
Qed.

Lemma deleteEach_offline (ids : list string) :
  forall w, onLine w = false ->
  onLine (snd (deleteEach ids w)) = false /\
  localCache (snd (deleteEach ids w)) = removeByIds ids (localCache w) /\
  pendingLog (snd (deleteEach ids w))
  = pendingLog w ++ map (fun i => mkQueueItem DELETE (PIdOnly i) (now w)) ids /\
  calls (snd (deleteEach ids w)) = calls w.
Proof.
  induction ids as [|i ids IH]; intros w Hoff; cbn [deleteEach map].
  - cbn. rewrite app_nil_r. repeat split; [exact Hoff|].
    unfold removeByIds. cbn. induction (localCache w) as [|x l IHl]; cbn; congruence.
  - destruct w as [online t user gid store r cs]. cbn in Hoff. subst online.
    unfold mbind, M_bind, bind at 1, try_catch. run.
    match goal with |- context [deleteEach ids ?w1] =>
      destruct (IH w1 eq_refl) as (H1 & H2 & H3 & H4) end.
    cbn in *. rewrite H1, H2, H3, H4. repeat split.
    + apply removeByIds_cons.
    + now rewrite <- app_assoc.
Qed.

(** X20.  A confirmed bulk delete never throws and never sets the error
    banner, however many of its deletes fail; the displayed list loses
    every listed id.  Offline, the Local Cache loses exactly the same
    records, the log gains one DELETE per listed id in list order, and no
    query is issued. *)
Theorem bulk_delete_is_best_effort (ids : list string) (st : AppState) w :
  exists w',
    handleBulkDeleteRequest ids st w
    = (Ok (mkAppState (removeByIds ids (app_observations st))
             (app_view st) (app_editingObservation st) (app_error st)), w') /\
    (onLine w = false ->
     localCache w' = removeByIds ids (localCache w) /\
     pendingLog w'
     = pendingLog w ++ map (fun i => mkQueueItem DELETE (PIdOnly i) (now w)) ids /\
     calls w' = calls w).
Proof.
  unfold handleBulkDeleteRequest, try_catch, mbind, M_bind, bind, ret.
  pose proof (deleteEach_never_throws ids w) as Hok.
  pose proof (deleteEach_offline ids w) as Hoff.
  destruct (deleteEach ids w) as [[[]|e] w1]; cbn in *; [|discriminate].
  exists w1. split; [reflexivity|]. intros H. now destruct (Hoff H) as (_ & ? & ? & ?).
Qed.

(** X21.  [requestSort] always selects the requested key.  A key other
    than the current one comes up ascending; asking for the same key again
    flips the direction each time, so a third request gives what the first
    gave. *)
Theorem requestSort_toggles (key : string) (c : SortConfig) :
  sort_key (requestSort key c) = key /\
  (sort_key c <> key -> sort_direction (requestSort key c) = ascending) /\
  sort_direction (requestSort key (requestSort key c))
  <> sort_direction (requestSort key c) /\
  requestSort key (requestSort key (requestSort key c)) = requestSort key c.
Proof.
  destruct c as [k d]. unfold requestSort. cbn.
  rewrite String.eqb_refl.
  destruct (String.eqb_spec k key) as [E|NE]; destruct d; cbn;
    rewrite ?String.eqb_refl; repeat split; try congruence; try discriminate.
Qed.

(** X22.  When some displayed record carries the requested id,
    [handleEditObservation] opens the form on the first such record:
    the view becomes the form, that record becomes the record being
    edited, and the displayed list and the error banner are untouched.
    For an id that is not displayed it changes nothing. *)
Theorem edit_opens_a_displayed_record (i : string) (st : @AppState number) :
  (forall l1 x l2,
     app_observations st = l1 ++ x :: l2 ->
     id x = i ->
     (forall y, In y l1 -> id y <> i) ->
     handleEditObservation i st
     = mkAppState (app_observations st) FORM (Some x) (app_error st)) /\
  ((forall x, In x (app_observations st) -> id x <> i) ->
   handleEditObservation i st = st).
Proof.
  unfold handleEditObservation. split.
  - intros l1 x l2 -> Hx Hl1.
    assert (E : List.find (fun obs => String.eqb (id obs) i) (l1 ++ x :: l2) = Some x).
    { clear st. induction l1 as [|y l1 IH]; cbn.
      - now rewrite Hx, String.eqb_refl.
      - destruct (String.eqb_spec (id y) i) as [Hy|_].
        + destruct (Hl1 y (or_introl eq_refl) Hy).
        + apply IH. intros z Hz. apply Hl1. now right. }
    destruct st as [l v ed er]. cbn in *. now rewrite E.
  - intros Hno.
    destruct (List.find _ (app_observations st)) as [x|] eqn:E; [|reflexivity].
    apply find_some in E as [Hin Hid]. apply String.eqb_eq in Hid.
    destruct (Hno x Hin Hid).
Qed.

(** ** Further properties, continued *)

(** X23.  [getObservations] never throws, and what it returns is always
    exactly the Local Cache as the call leaves it, whether it read the
    cache or refreshed it. *)
Theorem fetch_returns_the_cache w :
  fst (getObservations w) = Ok (localCache (snd (getObservations w))).
Proof.
  destruct w as [[] t user gid store r cs]; run; [|reflexivity].
  destruct (select_all r) as [[[rows|] [e|]|e] r']; reflexivity.
Qed.

(** X24.  The pending log is written by the offline branches only.
    Online, [saveObservation], [updateObservation] and
    [deleteObservation] leave the pending log exactly as it was, whether
    the remote call succeeds, fails or is never issued; [getObservations]
    and [syncObservations] never write it, online or offline. *)
Theorem online_writes_never_queue w :
  (onLine w = true ->
   (forall o, pendingLog (snd (saveObservation o w)) = pendingLog w) /\
   (forall o, pendingLog (snd (updateObservation o w)) = pendingLog w) /\
   (forall i, pendingLog (snd (deleteObservation i w)) = pendingLog w)) /\
  pendingLog (snd (getObservations w)) = pendingLog w /\
  (forall l, pendingLog (snd (syncObservations l w)) = pendingLog w).
Proof.
  destruct w as [online t user gid store r cs]. cbn.
  split; [intros ->; split; [|split]|split].
  - intros o. run. destruct user as [u|]; cbn; [|reflexivity].
    now destruct (insert_select_single _ r) as [[[d|] [e|]|e] r'].
  - intros o. run. now destruct (update_eq _ _ r) as [[d [e|]|e] r'].
  - intros i. run. now destruct (delete_eq _ r) as [[d [e|]|e] r'].
  - run. destruct online; cbn; [|reflexivity].
    now destruct (select_all r) as [[[rows|] [e|]|e] r'].
  - intros l. run. destruct user as [u|]; cbn; [|reflexivity].
    now destruct (upsert _ r) as [[d [e|]|e] r'].
Qed.

(** ** The enum helpers of the spreadsheet import *)

Lemma includes_In (values : list string) (value : string) :
  includes values value = true <-> In value values.
Proof.
  unfold includes. rewrite existsb_exists. split.
  - intros (x & Hin & Heq). apply String.eqb_eq in Heq. now subst.
  - intros Hin. exists value. split; [exact Hin|apply String.eqb_refl].
Qed.

Lemma coerce_to_enum (values : list string) (dflt value : string) :
  In dflt values ->
  let f := fun v => if includes values v then v else dflt in
  In (f value) values /\ (In value values -> f value = value) /\ f (f value) = f value.
Proof.
  intros Hd f. unfold f.
  destruct (includes values value) eqn:E.
  - apply includes_In in E. rewrite (proj2 (includes_In _ _) E). auto.
  - rewrite (proj2 (includes_In _ _) Hd). repeat split; auto.
    intros Hin. apply includes_In in Hin. congruence.
Qed.

(** X25.  Each of [mapStatus], [mapProtocol], [mapSexe], [mapAge],
    [mapCondition] and [mapComportement] returns a value of its enum
    whatever the cell holds, returns a cell that already is a value of the
    enum unchanged, and is idempotent. *)
Theorem enum_helpers_coerce (value : string) :
  (In (mapStatus value) Status_values /\
   (In value Status_values -> mapStatus value = value) /\
   mapStatus (mapStatus value) = mapStatus value) /\
  (In (mapProtocol value) Protocol_values /\
   (In value Protocol_values -> mapProtocol value = value) /\
   mapProtocol (mapProtocol value) = mapProtocol value) /\
  (In (mapSexe value) Sexe_values /\
   (In value Sexe_values -> mapSexe value = value) /\
   mapSexe (mapSexe value) = mapSexe value) /\
  (In (mapAge value) Age_values /\
   (In value Age_values -> mapAge value = value) /\
   mapAge (mapAge value) = mapAge value) /\
  (In (mapCondition value) ObservationCondition_values /\
   (In value ObservationCondition_values -> mapCondition value = value) /\
   mapCondition (mapCondition value) = mapCondition value) /\
  (In (mapComportement value) Comportement_values /\
   (In value Comportement_values -> mapComportement value = value) /\
   mapComportement (mapComportement value) = mapComportement value).
Proof.
  split; [exact (coerce_to_enum Status_values "NE" value ltac:(cbn; tauto))|].
  split; [exact (coerce_to_enum Protocol_values "Opportuniste" value ltac:(cbn; tauto))|].
  split; [exact (coerce_to_enum Sexe_values "Non renseigné" value ltac:(cbn; tauto))|].
  split; [exact (coerce_to_enum Age_values "Non renseigné" value ltac:(cbn; tauto))|].
  split; [exact (coerce_to_enum ObservationCondition_values "Non renseigné" value
                   ltac:(cbn; tauto))|].
  exact (coerce_to_enum Comportement_values "Non renseigné" value ltac:(cbn; tauto)).
Qed.

Lemma startsWith_app_nested (a b c : string) :
  startsWith (a ++ (b ++ c))%string (a ++ b)%string = true.
Proof.
  unfold startsWith. induction a as [|ch a IH]; cbn.
  - exact (startsWith_app b c).
  - rewrite IH. now destruct (Ascii.ascii_dec ch ch).
Qed.

(** X26.  [uploadPhoto] has no offline path and no local effect: it
    never writes to [localStorage] nor queries the [observations] table.
    Offline it throws its own message; online without a session it throws
    ['User not authenticated']; with a session the object is named
    [<user id>/<Date.now()>.jpg], and the call returns the public URL of
    that name exactly when the upload resolved without an error. *)
Theorem upload_has_no_offline_path {Blob : Type}
  (upload : string -> Blob -> Outcome unit) (getPublicUrl : string -> string)
  (file : Blob) w :
  snd (uploadPhoto upload getPublicUrl file w) = w /\
  (onLine w = false ->
   fst (uploadPhoto upload getPublicUrl file w)
   = Throw (Error "Impossible d'envoyer une photo en mode hors-ligne. Veuillez réessayer une fois connecté.")) /\
  (onLine w = true -> auth_user w = None ->
   fst (uploadPhoto upload getPublicUrl file w) = Throw (Error "User not authenticated")) /\
  (forall u, onLine w = true -> auth_user w = Some u ->
     let fileName := (user_ident u ++ "/" ++ decimal (now w) ++ ".jpg")%string in
     startsWith fileName (user_ident u ++ "/")%string = true /\
     (fst (uploadPhoto upload getPublicUrl file w) = Ok (getPublicUrl fileName) <->
      exists data, upload fileName file = Resolved data None)).
Proof.
  destruct w as [online t user gid store r cs]. unfold uploadPhoto. run.
  split; [|split; [|split]].
  - destruct online; [|reflexivity]. destruct user as [u|]; [|reflexivity]. cbn.
    now destruct (upload _ file) as [d [e|]|e].
  - now intros ->.
  - now intros -> ->.
  - intros u -> ->. cbn. split.
    + exact (startsWith_app_nested (user_ident u) "/" (decimal t ++ ".jpg")%string).
    + destruct (upload _ file) as [d [e|]|e]; cbn; split;
        try discriminate; eauto; intros (d' & [=]).
Qed.

End Properties.

(** ** The functions on explicit inputs *)

Import Fixture.

(** C1.  A drain over a log holding an INSERT with a placeholder id and
    an INSERT with a server-style id, online, with a session and a
    healthy Remote Store: [String(id)] names an identifier that is bound
    nowhere, the [ReferenceError] lands in the [catch], and so no create
    and no upsert is issued; both items stay in the log. *)
Theorem queued_inserts_are_never_submitted :
  processOfflineQueue (online_world healthy two_inserts)
  = (Ok tt, online_world healthy two_inserts) /\
  calls (snd (processOfflineQueue (online_world healthy two_inserts))) = [] /\
  pendingLog (snd (processOfflineQueue (online_world healthy two_inserts)))
  = [mkQueueItem INSERT (PObservation merle_placeholder) 1700000000123%N;
     mkQueueItem INSERT (PObservation pie) 1700000000456%N].
Proof. repeat split. Qed.

(** C3.  A drain over [UPDATE; DELETE] against a Remote Store that
    answers every query with an error object: the two calls are issued in
    queue order, both fail, and yet the stored log ends empty, because the
    loop never looks at the answers it awaits. *)
Theorem refused_items_are_dropped :
  calls (snd (processOfflineQueue (online_world refusing update_then_delete)))
  = [UpdateEq (mapToRow (sighting "b7e1" "Merle noir") "3f0c-alice") "b7e1";
     DeleteEq "c9d2";
     SelectAll] /\
  failed (on_write refusing
            (UpdateEq (mapToRow (sighting "b7e1" "Merle noir") "3f0c-alice") "b7e1")) /\
  failed (on_write refusing (DeleteEq "c9d2")) /\
  pendingLog (snd (processOfflineQueue (online_world refusing update_then_delete))) = [].
Proof. repeat split. Qed.

(** Counterexample to C2 as stated.  Online with a session, the insert is
    rejected by the network: [saveObservation] does not return a record
    with the INSERT queued and the record cached; it throws. *)
Lemma online_create_failure_is_not_queued :
  failed (fst (insert_select_single
                 (mapToRow merle (userIdOf (online_world unreachable empty_storage)))
                 (remote (online_world unreachable empty_storage)))) /\
  saveObservation merle (online_world unreachable empty_storage)
  = (Throw (TypeError "Failed to fetch"),
     mkWorld true 1700000000999%N (Some alice) None empty_storage unreachable
       [InsertSelectSingle (mapToRow merle "3f0c-alice")]) /\
  ~ (exists o' w',
       saveObservation merle (online_world unreachable empty_storage) = (Ok o', w') /\
       pendingLog w'
       = pendingLog (online_world unreachable empty_storage)
         ++ [mkQueueItem INSERT (PObservation o') 1700000000999%N] /\
       localCache w' = o' :: localCache (online_world unreachable empty_storage)).
Proof.
  split; [exact I|]. split; [reflexivity|].
  intros (o' & w' & Hsave & _). vm_compute in Hsave. discriminate.
Qed.

(** Counterexample to C4 as stated.  The only queued item succeeds, so
    the log ends empty and the fetch is issued; the fetch answers without
    rows, and the Local Cache is still the record cached before the
    drain, not a fetched list. *)
Lemma drained_log_without_refresh :
  pendingLog (snd (processOfflineQueue (online_world select_fails one_delete))) = [] /\
  calls (snd (processOfflineQueue (online_world select_fails one_delete)))
  = [DeleteEq "b7e1"; SelectAll] /\
  fetched (on_select select_fails) = None /\
  localCache (snd (processOfflineQueue (online_world select_fails one_delete)))
  = [pie] /\
  ~ (pendingLog (snd (processOfflineQueue (online_world select_fails one_delete))) = [] ->
     exists rows,
       fetched (fst (select_all (remote (snd (processOfflineQueue
                                               (online_world select_fails one_delete))))))
       = Some rows /\
       localCache (snd (processOfflineQueue (online_world select_fails one_delete)))
       = map mapToObservation rows).
Proof.
  repeat split.
  intros H. destruct (H eq_refl) as (rows & Hrows & _).
  vm_compute in Hrows. discriminate.
Qed.


(** *** Instances of the theorems above *)

Lemma online_failure_is_thrown_witness :
  onLine (online_world refusing one_delete) = true /\
  (exists e, fst (saveObservation merle (online_world refusing one_delete)) = Throw e /\
             localStorage (snd (saveObservation merle (online_world refusing one_delete)))
             = one_delete) /\
  (exists e, fst (updateObservation pie (online_world refusing one_delete)) = Throw e /\
             localStorage (snd (updateObservation pie (online_world refusing one_delete)))
             = one_delete) /\
  (exists e, fst (deleteObservation "c9d2" (online_world refusing one_delete)) = Throw e /\
             localStorage (snd (deleteObservation "c9d2" (online_world refusing one_delete)))
             = one_delete).
Proof.
  split; [reflexivity|].
  pose proof (online_failure_is_thrown (online_world refusing one_delete) eq_refl)
    as (Hsave & Hupdate & Hdelete).
  split; [exact (Hsave merle I)|].
  split; [exact (Hupdate pie I)|exact (Hdelete "c9d2" I)].
Defined.

Lemma drain_refresh_gating_witness :
  onLine (online_world healthy one_delete) = true /\
  pendingLog (online_world healthy one_delete) <> [] /\
  auth_user (online_world healthy one_delete) = Some alice /\
  exists kept w1,
    drainLoop (user_ident alice) (pendingLog (online_world healthy one_delete)) []
      (online_world healthy one_delete) = (Ok kept, w1) /\
    pendingLog (snd (processOfflineQueue (online_world healthy one_delete))) = kept.
Proof.
  split; [reflexivity|]. split; [discriminate|]. split; [reflexivity|].
  destruct (drain_refresh_gating (online_world healthy one_delete) alice
              eq_refl ltac:(discriminate) eq_refl)
    as (kept & w1 & Hloop & Hlog & _).
  exists kept, w1. split; [exact Hloop|exact Hlog].
Defined.





Lemma offline_create_is_visible_witness :
  onLine (offline_world empty_storage) = false /\
  (exists w',
     saveObservation merle (offline_world empty_storage) = (Ok merle_placeholder, w') /\
     localCache w' = [merle_placeholder] /\
     pendingLog w'
     = [mkQueueItem INSERT (PObservation merle_placeholder) 1700000000123%N]) /\
  (exists w',
     saveObservation pie (offline_world empty_storage) = (Ok pie, w') /\
     localCache w' = [pie]).
Proof.
  split; [reflexivity|]. split.
  - destruct (offline_create_is_visible merle (offline_world empty_storage) eq_refl)
      as (o' & w' & Hsave & _ & _ & _ & Hcache & _ & _ & _ & Hlog).
    assert (E : o' = merle_placeholder).
    { pose proof Hsave as H. vm_compute in H. now injection H as <- _. }
    rewrite E in *. exists w'. split; [exact Hsave|]. split; [exact Hcache|exact Hlog].
  - destruct (offline_create_is_visible pie (offline_world empty_storage) eq_refl)
      as (o' & w' & Hsave & _ & _ & Hkeep & Hcache & _).
    rewrite (Hkeep ltac:(discriminate)) in *.
    exists w'. split; [exact Hsave|exact Hcache].
Defined.

Lemma getObservations_read_path_witness :
  getObservations (offline_world one_delete)
  = (Ok (localCache (offline_world one_delete)), offline_world one_delete) /\
  fst (getObservations (online_world unreachable one_delete)) = Ok [pie] /\
  fst (getObservations (online_world healthy one_delete))
  = Ok [sighting "b7e1" "Merle noir"].
Proof.
  split; [exact (proj1 (getObservations_read_path (offline_world one_delete)) eq_refl)|].
  split.
  - exact (proj1 (proj1 (proj2 (getObservations_read_path
                                  (online_world unreachable one_delete)))
                    eq_refl eq_refl)).
  - exact (proj1 (proj2 (proj2 (getObservations_read_path
                                  (online_world healthy one_delete)))
                    _ eq_refl eq_refl)).
Defined.

Lemma drain_without_user_is_noop_witness :
  onLine (mkWorld true 1700000000999%N None None one_delete healthy []) = true /\
  pendingLog (mkWorld true 1700000000999%N None None one_delete healthy []) <> [] /\
  auth_user (mkWorld true 1700000000999%N None None one_delete healthy []) = None /\
  processOfflineQueue (mkWorld true 1700000000999%N None None one_delete healthy [])
  = (Ok tt, mkWorld true 1700000000999%N None None one_delete healthy []).
Proof.
  split; [reflexivity|]. split; [discriminate|]. split; [reflexivity|].
  exact (drain_without_user_is_noop
           (mkWorld true 1700000000999%N None None one_delete healthy [])
           eq_refl ltac:(discriminate) eq_refl).
Defined.

Lemma pie_is_not_merle (x : Observation Z) :
  In x (localCache (offline_world one_delete)) -> id x <> "b7e1".
Proof. intros [<-|[]]. discriminate. Qed.

Lemma offline_write_of_unknown_id_witness :
  onLine (offline_world one_delete) = false /\
  (exists w',
     updateObservation (sighting "b7e1" "Merle noir") (offline_world one_delete)
     = (Ok tt, w') /\
     localCache w' = [pie]) /\
  (exists w',
     deleteObservation "b7e1" (offline_world one_delete) = (Ok tt, w') /\
     localCache w' = [pie]).
Proof.
  split; [reflexivity|].
  pose proof (offline_write_of_unknown_id (offline_world one_delete) eq_refl)
    as (Hupdate & Hdelete).
  split.
  - destruct (Hupdate (sighting "b7e1" "Merle noir") pie_is_not_merle)
      as (w' & Hrun & _ & Hcache & _).
    exists w'. split; [exact Hrun|exact Hcache].
  - destruct (Hdelete "b7e1" pie_is_not_merle) as (w' & Hrun & _ & Hcache & _).
    exists w'. split; [exact Hrun|exact Hcache].
Defined.

Lemma import_merge_last_write_wins_witness :
  mergeImport [sighting "1" "Y"] [sighting "1" "X"] = [sighting "1" "X"].
Proof.
  exact (proj2 (proj2 (proj2 (proj2 (proj2
           (import_merge_last_write_wins [sighting "1" "Y"] [sighting "1" "X"])))))
           (sighting "1" "X") (sighting "1" "Y") eq_refl).
Defined.

(** *** Instances of the further properties *)

Lemma online_create_stores_server_record_witness :
  onLine (link_online empty_storage) = true /\
  auth_user (link_online empty_storage) = Some alice /\
  exists w',
    saveObservation merle (link_online empty_storage) = (Ok merle_saved, w') /\
    localCache w' = [merle_saved] /\
    pendingLog w' = [].
Proof.
  split; [reflexivity|]. split; [reflexivity|].
  destruct (online_create_stores_server_record (RS := LinkStore)
              merle (link_online empty_storage) alice
              (mkDbRow "b7e1" (mapToRow merle "3f0c-alice")) LinkUp
              eq_refl eq_refl ltac:(reflexivity))
    as (w' & Hsave & _ & Hcache & Hlog & _).
  exists w'. split; [exact Hsave|]. split; [exact Hcache|exact Hlog].
Defined.

Lemma writes_need_a_session_witness :
  auth_user (signed_out one_delete) = None /\
  saveObservation merle (signed_out one_delete)
  = (Throw (Error "User not authenticated"), signed_out one_delete) /\
  syncObservations [pie] (signed_out one_delete)
  = (Throw (Error "User not authenticated"), signed_out one_delete).
Proof.
  split; [reflexivity|].
  split; [exact (proj1 (writes_need_a_session (signed_out one_delete) eq_refl) merle eq_refl)
         |exact (proj2 (writes_need_a_session (signed_out one_delete) eq_refl) [pie])].
Defined.

Lemma update_replaces_by_id_witness :
  lookupById "c9d2"
    (localCache (snd (updateObservation (sighting "c9d2" "Pie-grieche") (offline_world one_delete))))
  = Some (sighting "c9d2" "Pie-grieche").
Proof.
  exact (proj2 (proj1 (update_replaces_by_id (sighting "c9d2" "Pie-grieche")
                         (offline_world one_delete)) _ eq_refl) "c9d2").
Defined.

Lemma delete_removes_by_id_witness :
  localCache (snd (deleteObservation "c9d2" (offline_world one_delete))) = [].
Proof.
  exact (proj1 (proj1 (delete_removes_by_id "c9d2" (offline_world one_delete)) _ eq_refl)).
Defined.

Lemma sync_is_one_bulk_upsert_witness :
  auth_user (online_world healthy one_delete) = Some alice /\
  calls (snd (syncObservations [pie; geai] (online_world healthy one_delete)))
  = [Upsert [mapToRow pie "3f0c-alice"; mapToRow geai "3f0c-alice"]].
Proof.
  split; [reflexivity|].
  exact (proj1 (sync_is_one_bulk_upsert [pie; geai] (online_world healthy one_delete)
                  alice eq_refl)).
Defined.

Lemma drain_replay_is_noop_witness :
  processOfflineQueue (offline_world one_delete) = (Ok tt, offline_world one_delete) /\
  processOfflineQueue (snd (processOfflineQueue (online_world healthy one_delete)))
  = (Ok tt, snd (processOfflineQueue (online_world healthy one_delete))).
Proof.
  split.
  - exact (proj1 (drain_replay_is_noop (offline_world one_delete)) (or_introl eq_refl)).
  - exact (proj2 (drain_replay_is_noop (online_world healthy one_delete)) eq_refl).
Defined.

Lemma drain_queries_in_queue_order_witness :
  onLine (online_world healthy update_then_delete) = true /\
  pendingLog (online_world healthy update_then_delete) <> [] /\
  auth_user (online_world healthy update_then_delete) = Some alice /\
  calls (snd (processOfflineQueue (online_world healthy update_then_delete)))
  = [UpdateEq (mapToRow merle_saved "3f0c-alice") "b7e1"; DeleteEq "c9d2"; SelectAll].
Proof.
  split; [reflexivity|]. split; [discriminate|]. split; [reflexivity|].
  exact (drain_queries_in_queue_order (online_world healthy update_then_delete) alice
           eq_refl ltac:(discriminate) eq_refl).
Defined.

Lemma queued_insert_blocks_the_drain_witness :
  onLine (online_world healthy two_inserts) = true /\
  global_id (online_world healthy two_inserts) = None /\
  In (mkQueueItem INSERT (PObservation pie) 1700000000456%N)
     (pendingLog (snd (processOfflineQueue (online_world healthy two_inserts)))).
Proof.
  split; [reflexivity|]. split; [reflexivity|].
  exact (proj1 (proj2 (queued_insert_blocks_the_drain (online_world healthy two_inserts)
                         alice (mkQueueItem INSERT (PObservation pie) 1700000000456%N)
                         eq_refl eq_refl eq_refl (or_intror (or_introl eq_refl)) eq_refl))).
Defined.

Lemma three_created_run :
  offline_run link_offline
    [OpCreate merle; OpCreate merle; OpCreate pie]
    [mkQueueItem INSERT (PObservation merle_placeholder) 1700000000123%N;
     mkQueueItem INSERT (PObservation (sighting "temp-1700000000456" "Merle noir"))
       1700000000456%N;
     mkQueueItem INSERT (PObservation pie) 1700000000789%N]
    three_created.
Proof.
  unfold three_created.
  change (offline_run link_offline
    [OpCreate merle; OpCreate merle; OpCreate pie]
    (option_list (queuedBy (now link_offline) (OpCreate merle))
     ++ option_list (queuedBy 1700000000456%N (OpCreate merle))
     ++ option_list (queuedBy 1700000000789%N (OpCreate pie)) ++ [])
    (later 1700000000999%N (exec (OpCreate pie)
       (later 1700000000789%N (exec (OpCreate merle)
          (later 1700000000456%N (exec (OpCreate merle) link_offline))))))).
  apply offline_step; [reflexivity|].
  apply offline_wait
    with (w' := later 1700000000456%N (exec (OpCreate merle) link_offline));
    [reflexivity|reflexivity|].
  apply (offline_step (later 1700000000456%N (exec (OpCreate merle) link_offline)));
    [reflexivity|].
  apply offline_wait
    with (w' := later 1700000000789%N (exec (OpCreate merle)
                  (later 1700000000456%N (exec (OpCreate merle) link_offline))));
    [reflexivity|reflexivity|].
  apply (offline_step (later 1700000000789%N (exec (OpCreate merle)
           (later 1700000000456%N (exec (OpCreate merle) link_offline)))));
    [reflexivity|].
  eapply offline_wait; [| |apply offline_done]; reflexivity.
Qed.

Lemma offline_log_records_writes_witness :
  pendingLog three_created
  = [mkQueueItem INSERT (PObservation merle_placeholder) 1700000000123%N;
     mkQueueItem INSERT (PObservation (sighting "temp-1700000000456" "Merle noir"))
       1700000000456%N;
     mkQueueItem INSERT (PObservation pie) 1700000000789%N] /\
  calls three_created = [].
Proof.
  split.
  - exact (proj1 (offline_log_records_writes _ _ _ _ three_created_run)).
  - apply (proj2 (offline_log_records_writes _ _ _ _ three_created_run)).
    intros a b [[=]|[[=]|[[=]|[]]]].
Defined.

Lemma pie_is_not_the_placeholder (x : Observation Z) :
  In x (localCache (offline_world one_delete)) ->
  id x <> js_or (id merle) ("temp-" ++ decimal (now (offline_world one_delete))).
Proof. intros [<-|[]]. discriminate. Qed.

Lemma offline_create_then_delete_witness :
  onLine (offline_world one_delete) = false /\
  exists o' w1 w2,
    saveObservation merle (offline_world one_delete) = (Ok o', w1) /\
    deleteObservation (id o') w1 = (Ok tt, w2) /\
    localCache w2 = [pie].
Proof.
  split; [reflexivity|].
  destruct (offline_create_then_delete merle (offline_world one_delete) eq_refl
              pie_is_not_the_placeholder)
    as (o' & w1 & w2 & Hsave & Hdel & Hcache & _).
  exists o', w1, w2. split; [exact Hsave|]. split; [exact Hdel|exact Hcache].
Defined.

Lemma last_update_wins_witness :
  localCache
    (snd (updateObservation (sighting "c9d2" "Pie-grieche")
            (snd (updateObservation (sighting "c9d2" "Pic vert") (offline_world one_delete)))))
  = [sighting "c9d2" "Pie-grieche"].
Proof.
  exact (last_update_wins (sighting "c9d2" "Pic vert") (sighting "c9d2" "Pie-grieche")
           (offline_world one_delete) _ _ _ eq_refl eq_refl eq_refl eq_refl).
Defined.

Lemma one_id_is_distinct : NoDup (map id [pie]).
Proof. apply NoDup_singleton. Qed.

Lemma import_merge_ids_witness :
  NoDup (map id [pie]) /\
  NoDup (map id (mergeImport [pie] [merle_saved; sighting "c9d2" "Pie-grieche"; merle_saved])).
Proof.
  split; [exact one_id_is_distinct|].
  exact (proj2 (proj2 (proj2 (import_merge_ids [pie]
           [merle_saved; sighting "c9d2" "Pie-grieche"; merle_saved])))
           one_id_is_distinct).
Defined.

Lemma two_ids_are_distinct : NoDup (map id [merle_saved; geai]).
Proof.
  apply NoDup_cons. split; [|apply NoDup_singleton].
  intros [=]%list_elem_of_singleton.
Qed.

Lemma two_ids_are_new (i : string) :
  In i (map id [merle_saved; geai]) -> ~ In i (map id [pie]).
Proof. intros [<-|[<-|[]]] [[=]|[]]. Qed.

Lemma import_of_new_records_appends_witness :
  NoDup (map id [merle_saved; geai]) /\
  mergeImport [pie] [merle_saved; geai] = [pie; merle_saved; geai].
Proof.
  split; [exact two_ids_are_distinct|].
  exact (import_of_new_records_appends [pie] [merle_saved; geai]
           two_ids_are_distinct two_ids_are_new).
Defined.

Lemma import_pushes_merged_list_witness :
  handleImportRequest [pie] [merle_saved] (signed_out one_delete)
  = (Ok [pie], signed_out one_delete) /\
  fst (handleImportRequest [pie] [merle_saved] (online_world healthy one_delete))
  = Ok [pie; merle_saved] /\
  fst (handleImportRequest [pie] [merle_saved] (online_world refusing one_delete))
  = Ok [pie].
Proof.
  split; [exact (proj1 (proj2 (import_pushes_merged_list [pie] [merle_saved]
                                 (signed_out one_delete))) eq_refl)|].
  split.
  - exact (proj1 (proj2 (proj2 (proj2 (import_pushes_merged_list [pie] [merle_saved]
             (online_world healthy one_delete))) alice eq_refl)) (fun H => H)).
  - exact (proj2 (proj2 (proj2 (proj2 (import_pushes_merged_list [pie] [merle_saved]
             (online_world refusing one_delete))) alice eq_refl)) I).
Defined.

Lemma delete_handler_keeps_list_in_step_witness :
  exists st',
    handleDeleteRequest "c9d2" showing_pie (offline_world one_delete)
    = (Ok st', snd (deleteObservation "c9d2" (offline_world one_delete))) /\
    app_observations st'
    = localCache (snd (deleteObservation "c9d2" (offline_world one_delete))).
Proof.
  destruct (delete_handler_keeps_list_in_step "c9d2" showing_pie (offline_world one_delete))
    as (st' & Hrun & Hsync & _).
  exists st'. split; [exact Hrun|exact (Hsync eq_refl)].
Defined.

Lemma save_handler_keeps_list_in_step_witness :
  (exists st' w',
     handleSaveObservation (sighting "c9d2" "Pie-grieche") editing_pie
       (online_world refusing one_delete) = (Ok st', w') /\
     app_observations st' = [pie] /\
     app_view st' = FORM /\
     app_editingObservation st' = Some pie /\
     app_error st' = Some "Erreur lors de la sauvegarde de l'observation." /\
     app_observations st' = localCache w') /\
  (exists st' w',
     handleSaveObservation (sighting "c9d2" "Pie-grieche") editing_pie
       (offline_world one_delete) = (Ok st', w') /\
     app_observations st' = [sighting "c9d2" "Pie-grieche"] /\
     app_view st' = LIST /\
     app_editingObservation st' = None /\
     app_error st' = None /\
     app_observations st' = localCache w').
Proof.
  split.
  - destruct (save_handler_keeps_list_in_step (sighting "c9d2" "Pie-grieche") editing_pie
                (online_world refusing one_delete))
      as (st' & w' & Hrun & [_ [[Hok _]|[_ (Hl & Hv & He & Hb)]]] & Hsync).
    + discriminate Hok.
    + exists st', w'. split; [exact Hrun|]. split; [exact Hl|]. split; [exact Hv|].
      split; [exact He|]. split; [exact Hb|].
      exact (Hsync (or_introl (ex_intro _ pie eq_refl)) eq_refl).
  - destruct (save_handler_keeps_list_in_step (sighting "c9d2" "Pie-grieche") editing_pie
                (offline_world one_delete))
      as (st' & w' & Hrun & [_ [(_ & Hl & Hv & He & Hb)|[[e Hthrow] _]]] & Hsync).
    + exists st', w'. split; [exact Hrun|]. split; [exact Hl|]. split; [exact Hv|].
      split; [exact He|]. split; [exact Hb|].
      exact (Hsync (or_introl (ex_intro _ pie eq_refl)) eq_refl).
    + discriminate Hthrow.
Defined.

Lemma bulk_delete_is_best_effort_witness :
  onLine (offline_world one_delete) = false /\
  exists w',
    handleBulkDeleteRequest ["c9d2"; "b7e1"] showing_pie (offline_world one_delete)
    = (Ok (mkAppState [] LIST None None), w') /\
    localCache w' = [].
Proof.
  split; [reflexivity|].
  destruct (bulk_delete_is_best_effort ["c9d2"; "b7e1"] showing_pie (offline_world one_delete))
    as (w' & Hrun & Hoff).
  exists w'. split; [exact Hrun|exact (proj1 (Hoff eq_refl))].
Defined.

Lemma requestSort_toggles_witness :
  sort_key (mkSortConfig "date" descending) <> "speciesName" /\
  sort_direction (requestSort "speciesName" (mkSortConfig "date" descending)) = ascending.
Proof.
  split; [discriminate|].
  exact (proj1 (proj2 (requestSort_toggles "speciesName" (mkSortConfig "date" descending)))
           ltac:(discriminate)).
Defined.

Lemma nothing_displayed_is_merle (x : Observation Z) :
  In x (app_observations showing_pie) -> id x <> "b7e1".
Proof. intros [<-|[]]. discriminate. Qed.

Lemma pie_is_not_geai (y : Observation Z) : In y [pie] -> id y <> "e4f5".
Proof. intros [<-|[]]. discriminate. Qed.

Lemma edit_opens_a_displayed_record_witness :
  handleEditObservation "e4f5" showing_three
  = mkAppState [pie; geai; sighting "e4f5" "Geai bleu"] FORM (Some geai) None /\
  handleEditObservation "b7e1" showing_pie = showing_pie.
Proof.
  split.
  - exact (proj1 (edit_opens_a_displayed_record "e4f5" showing_three)
             [pie] geai [sighting "e4f5" "Geai bleu"] eq_refl eq_refl pie_is_not_geai).
  - exact (proj2 (edit_opens_a_displayed_record "b7e1" showing_pie)
             nothing_displayed_is_merle).
Defined.

Lemma online_writes_never_queue_witness :
  onLine (online_world healthy one_delete) = true /\
  pendingLog (snd (saveObservation merle (online_world healthy one_delete)))
  = [mkQueueItem DELETE (PIdOnly "b7e1") 1700000000123%N] /\
  pendingLog (snd (updateObservation pie (online_world healthy one_delete)))
  = [mkQueueItem DELETE (PIdOnly "b7e1") 1700000000123%N] /\
  pendingLog (snd (deleteObservation "c9d2" (online_world healthy one_delete)))
  = [mkQueueItem DELETE (PIdOnly "b7e1") 1700000000123%N].
Proof.
  split; [reflexivity|].
  destruct (proj1 (online_writes_never_queue (online_world healthy one_delete)) eq_refl)
    as (Hsave & Hupdate & Hdelete).
  split; [exact (Hsave merle)|]. split; [exact (Hupdate pie)|exact (Hdelete "c9d2")].
Defined.

Lemma enum_helpers_coerce_witness :
  In "LC" Status_values /\ mapStatus "LC" = "LC".
Proof.
  split; [cbn; tauto|].
  exact (proj1 (proj2 (proj1 (enum_helpers_coerce "LC"))) ltac:(cbn; tauto)).
Defined.

Lemma upload_has_no_offline_path_witness :
  fst (uploadPhoto bucket_accepts public_url "jpeg-bytes" (offline_world one_delete))
  = Throw (Error "Impossible d'envoyer une photo en mode hors-ligne. Veuillez réessayer une fois connecté.") /\
  fst (uploadPhoto bucket_accepts public_url "jpeg-bytes" (signed_out one_delete))
  = Throw (Error "User not authenticated") /\
  fst (uploadPhoto bucket_accepts public_url "jpeg-bytes" (online_world healthy one_delete))
  = Ok "https://example.supabase.co/storage/v1/object/public/photos/3f0c-alice/1700000000999.jpg".
Proof.
  split; [exact (proj1 (proj2 (upload_has_no_offline_path bucket_accepts public_url
                                 "jpeg-bytes" (offline_world one_delete))) eq_refl)|].
  split; [exact (proj1 (proj2 (proj2 (upload_has_no_offline_path bucket_accepts public_url
                                 "jpeg-bytes" (signed_out one_delete)))) eq_refl eq_refl)|].
  exact (proj2 (proj2 (proj2 (proj2 (proj2 (upload_has_no_offline_path bucket_accepts
           public_url "jpeg-bytes" (online_world healthy one_delete)))) alice eq_refl eq_refl))
           (ex_intro _ None eq_refl)).
Defined.
